(** * The executor extension library (library.cpp), embedded in Rocq

    The library is loaded by a Lua-family interpreter.  On load
    ([luaopen_mylibrary]) it creates the directory [workspace], registers
    the script functions [readfile] and [writefile], runs a bundled
    bootstrap script and takes a registry reference to the function the
    script returns.

    The embedding follows the C++ text function by function.  What the
    C++ code reaches through [lua_State* L] and through the operating
    system is one explicit record, [world], threaded by a small
    state-and-failure monad.

    What the library calls and does not define is modelled as follows.
    - The Lua C API follows the Lua 5.1 reference manual ([lua_tostring]
      converts numbers, [luaL_ref] pops the value it stores).  The stack
      is unbounded.  The library never computes with a number, it only
      has [lua_tostring] convert it; a number is therefore known by the
      text that conversion gives, whatever the value and the number
      format of the interpreter.
    - The interpreter proper (compiling and running script text) is a
      parameter, the record [interpreter]: the library's behaviour is
      stated for every outcome of loading and running the bootstrap.
    - The file system is a concrete model of the POSIX calls the code
      makes (the [#else] branch of the [_WIN32] conditionals): path
      resolution with the length limits of names and paths, directories
      that may be read-only, files that may be unreadable or read-only, a
      null device, and a disk with a bounded number of free bytes, so
      that a write on an open stream can fail.  There are no symbolic
      links and no devices that deliver input without end; what a
      command run by [system] prints is not recorded.
    - Behaviour the C++ standard leaves undefined is the outcome
      [Undefined].

    [playerAddedHandler], [generateScript] and [scanVulnerabilities] are
    defined in library.cpp but never registered or called; they are
    embedded after the functions the load uses, and run through the same
    calling convention. *)

From Stdlib Require Import ZArith Strings.String Strings.Ascii.
From stdpp Require Import base option list strings gmap.

Open Scope Z_scope.

(** ** C strings

    A Lua string is a byte string with an explicit length and may hold
    NUL bytes.  [lua_tostring] hands out a [const char*] to those bytes,
    and every consumer in library.cpp ([std::string +=], [operator<<],
    [lua_pushstring], [strlen], the [std::string] constructor) reads it as
    a C string: up to, and without, the first NUL byte. *)

Definition NUL : ascii := Ascii.zero.

Fixpoint c_str (s : string) : string :=
  match s with
  | EmptyString => EmptyString
  | String c s' => if Ascii.eqb c NUL then EmptyString else String c (c_str s')
  end.

Fixpoint has_NUL (s : string) : bool :=
  match s with
  | EmptyString => false
  | String c s' => Ascii.eqb c NUL || has_NUL s'
  end.

Definition newline : string := String (ascii_of_nat 10) EmptyString.
Definition dquote : string := String (ascii_of_nat 34) EmptyString.

(** ** The file system

    Inodes are keyed by their canonical absolute path, a list of names
    from the root.  A regular file carries the permissions the process
    has on it.  [NullDevice] is a character device like [/dev/null]: it
    can be opened both ways, swallows what is written and delivers
    nothing.  The disk has [free] bytes left for file data (counted in
    bytes, where a real disk counts in blocks): a write stores what fits
    and fails when not everything did; creating an empty file or a
    directory takes none of them.  A file the process creates is readable
    and writable for it (a umask that leaves the owner's permissions, as
    the default does). *)

Inductive inode :=
| RegFile (data : string) (readable writable : bool)
| Directory (writable : bool)
| NullDevice.

Record filesys := FileSys {
  cwd : list string;
  nodes : gmap (list string) inode;
  free : N
}.

(** The limits of Linux on the length of a name and of a path (the path
    with its closing NUL byte has to fit in [PATH_MAX] bytes). *)
Definition NAME_MAX : nat := 255.
Definition PATH_MAX : nat := 4096.

(** The length of a byte string, as a count of bytes on disk. *)
Definition len (s : string) : N := N.of_nat (String.length s).

Definition is_dir (fs : filesys) (d : list string) : bool :=
  match nodes fs !! d with
  | Some (Directory _) => true
  | _ => false
  end.

Definition is_writable_dir (fs : filesys) (d : list string) : bool :=
  match nodes fs !! d with
  | Some (Directory w) => w
  | _ => false
  end.

Definition set_node (q : list string) (i : inode) (fs : filesys) : filesys :=
  FileSys (cwd fs) (<[q := i]> (nodes fs)) (free fs).

Definition set_free (n : N) (fs : filesys) : filesys :=
  FileSys (cwd fs) (nodes fs) n.

(** The components of a path: the pieces between slashes, empty pieces
    included ([a//b/] has the components a, empty, b, empty). *)
Fixpoint components (p : string) : list string :=
  match p with
  | EmptyString => [EmptyString]
  | String c p' =>
      if Ascii.eqb c "/" then EmptyString :: components p'
      else match components p' with
           | h :: t => String c h :: t
           | [] => [String c EmptyString]
           end
  end.

(** One step of path resolution.  A component is looked up in the
    directory reached so far, which has to exist as a directory; an empty
    component and [.] stay there, [..] goes to the parent; a name longer
    than [NAME_MAX] is refused. *)
Definition walk (fs : filesys) (cur : option (list string)) (name : string)
  : option (list string) :=
  match cur with
  | None => None
  | Some d =>
      if is_dir fs d then
        if String.eqb name "" || String.eqb name "." then Some d
        else if String.eqb name ".." then Some (removelast d)
        else if (String.length name <=? NAME_MAX)%nat then Some (d ++ [name])
        else None
      else None
  end.

(** Resolution of a relative path (the library only builds relative
    ones).  A path of [PATH_MAX] bytes or more is refused. *)
Definition resolve (fs : filesys) (p : string) : option (list string) :=
  if (String.length p <? PATH_MAX)%nat
  then fold_left (walk fs) (components p) (Some (cwd fs))
  else None.

(** [open(p, O_RDONLY)] as [std::ifstream] does it: the bytes the stream
    will deliver.  A directory can be opened for reading; reading from it
    yields nothing. *)
Definition open_in (fs : filesys) (p : string) : option string :=
  match resolve fs p with
  | None => None
  | Some q =>
      match nodes fs !! q with
      | Some (RegFile d readable _) => if readable then Some d else None
      | Some (Directory _) => Some EmptyString
      | Some NullDevice => Some EmptyString
      | None => None
      end
  end.

(** [open(p, O_WRONLY|O_CREAT|O_TRUNC)] as [std::ofstream] does it: the
    inode that is open afterwards, and the file system with that inode
    emptied or created.  Emptying a file gives its bytes back to the
    disk. *)
Definition open_out (fs : filesys) (p : string) : option (list string * filesys) :=
  match resolve fs p with
  | None => None
  | Some q =>
      match nodes fs !! q with
      | Some (RegFile d readable writable) =>
          if writable
          then Some (q, set_free (free fs + len d)
                          (set_node q (RegFile EmptyString readable writable) fs))
          else None
      | Some (Directory _) => None
      | Some NullDevice => Some (q, fs)
      | None =>
          if is_writable_dir fs (removelast q)
          then Some (q, set_node q (RegFile EmptyString true true) fs)
          else None
      end
  end.

(** Writing bytes at the end of an open file: the disk afterwards, and
    whether all the bytes were taken.  A regular file takes as many bytes
    as the disk has free. *)
Definition append_file (q : list string) (bytes : string) (fs : filesys)
  : filesys * bool :=
  match nodes fs !! q with
  | Some (RegFile d readable writable) =>
      let n := N.min (len bytes) (free fs) in
      (set_free (free fs - n)
         (set_node q (RegFile (d +:+ substring 0 (N.to_nat n) bytes) readable writable) fs),
       (len bytes <=? free fs)%N)
  | Some NullDevice => (fs, true)
  | _ => (fs, false)
  end.

(** [mkdir -p name] for a single name in the current directory, with the
    exit code of the command. *)
Definition mkdir_p (name : string) (fs : filesys) : filesys * Z :=
  let q := cwd fs ++ [name] in
  if is_dir fs (cwd fs) then
    match nodes fs !! q with
    | Some (Directory _) => (fs, 0)
    | Some (RegFile _ _ _) | Some NullDevice => (fs, 1)
    | None =>
        if is_writable_dir fs (cwd fs)
        then (set_node q (Directory true) fs, 0)
        else (fs, 1)
    end
  else (fs, 1).

(** ** Lua values and the interpreter state *)

(** The two lambdas that [registerExecutorFunctions] registers. *)
Inductive cfun := CF_readfile | CF_writefile.

(** A number is kept as the text [lua_tostring] converts it to;
    [LFunction] is a function written in the script language, known by an
    identity only; [Table] stands for the values that are neither
    strings, numbers nor functions. *)
Inductive value :=
| Nil
| Boolean (b : bool)
| Number (text : string)
| Str (s : string)
| CFunction (f : cfun)
| LFunction (id : nat)
| Table (id : nat).

Definition is_function (v : value) : bool :=
  match v with
  | CFunction _ | LFunction _ => true
  | _ => false
  end.

Definition lua_typename (v : value) : string :=
  match v with
  | Nil => "nil"
  | Boolean _ => "boolean"
  | Number _ => "number"
  | Str _ => "string"
  | CFunction _ | LFunction _ => "function"
  | Table _ => "table"
  end.

(** What the library does to its environment, in order. *)
Inductive event :=
| EvSystem (cmd : string)
| EvOpenRead (path : string)
| EvOpenWrite (path : string).

(** Everything the C++ code can reach: the interpreter state behind
    [lua_State* L] (the stack frame of the running C function, bottom
    first; the globals; the references in the registry), the disk, the
    text sent to [std::cerr], and the log of system calls. *)
Record world := World {
  stack : list value;
  globals : gmap string value;
  registry : gmap Z value;
  disk : filesys;
  cerr : string;
  trace : list event
}.

Definition set_stack (st : list value) (w : world) : world :=
  World st (globals w) (registry w) (disk w) (cerr w) (trace w).
Definition set_globals (g : gmap string value) (w : world) : world :=
  World (stack w) g (registry w) (disk w) (cerr w) (trace w).
Definition set_registry (r : gmap Z value) (w : world) : world :=
  World (stack w) (globals w) r (disk w) (cerr w) (trace w).
Definition set_disk (fs : filesys) (w : world) : world :=
  World (stack w) (globals w) (registry w) fs (cerr w) (trace w).
Definition set_cerr (s : string) (w : world) : world :=
  World (stack w) (globals w) (registry w) (disk w) s (trace w).
Definition log (e : event) (w : world) : world :=
  World (stack w) (globals w) (registry w) (disk w) (cerr w) (trace w ++ [e]).

(** ** The monad of native code

    A native function either returns a value and a new world, or its
    behaviour is undefined (an API call outside its contract, a
    [std::string] built from a null pointer). *)

Inductive outcome (A : Type) :=
| Ret (a : A) (w : world)
| Undefined.
Arguments Ret {A} a w.
Arguments Undefined {A}.

Definition M (A : Type) : Type := world -> outcome A.

Definition ret {A} (a : A) : M A := fun w => Ret a w.
Definition undefined {A} : M A := fun _ => Undefined.
Definition bind {A B} (m : M A) (k : A -> M B) : M B :=
  fun w => match m w with
           | Ret a w' => k a w'
           | Undefined => Undefined
           end.
Definition modify (f : world -> world) : M unit := fun w => Ret tt (f w).

Notation "'let*' x ':=' m 'in' k" := (bind m (fun x => k))
  (at level 10, x name, m at level 100, k at level 200).
Notation "'exec' m 'in' k" := (bind m (fun _ => k))
  (at level 10, m at level 100, k at level 200).

(** ** The Lua C API, as far as library.cpp calls it

    The stack is unbounded in the model.  An index [i >= 1] counts from
    the bottom of the frame and may lie above the top (it then names no
    value); an index [i <= -1] counts from the top and has to name a
    value. *)

Inductive slot :=
| Slot (pos : nat)
| NoValue
| BadIndex.

Definition index2adr (st : list value) (idx : Z) : slot :=
  let top := Z.of_nat (length st) in
  if 0 <? idx then
    if idx <=? top then Slot (Z.to_nat (idx - 1)) else NoValue
  else if (idx <? 0) && (- top <=? idx) then Slot (Z.to_nat (top + idx))
  else BadIndex.

Definition push (v : value) : M unit :=
  modify (fun w => set_stack (stack w ++ [v]) w).

Definition lua_pushnil : M unit := push Nil.
Definition lua_pushboolean (b : Z) : M unit := push (Boolean (negb (b =? 0))).
(** [lua_pushstring(L, s)] copies the C string at [s]. *)
Definition lua_pushstring (s : string) : M unit := push (Str (c_str s)).
Definition lua_pushcfunction (f : cfun) : M unit := push (CFunction f).

Definition lua_pushvalue (idx : Z) : M unit := fun w =>
  match index2adr (stack w) idx with
  | Slot i =>
      match stack w !! i with
      | Some v => push v w
      | None => Undefined
      end
  | NoValue => push Nil w
  | BadIndex => Undefined
  end.

(** [lua_pop(L, n)] is [lua_settop(L, -(n)-1)]. *)
Definition lua_pop (n : nat) : M unit := fun w =>
  if (n <=? length (stack w))%nat
  then Ret tt (set_stack (take (length (stack w) - n) (stack w)) w)
  else Undefined.

(** [lua_tostring(L, idx)], that is [lua_tolstring(L, idx, NULL)]: the
    bytes of a string; a number is first converted to a string in its
    stack slot; for any other value, and for no value, a null pointer. *)
Definition lua_tolstring (idx : Z) : M (option string) := fun w =>
  match index2adr (stack w) idx with
  | Slot i =>
      match stack w !! i with
      | Some (Str s) => Ret (Some s) w
      | Some (Number text) =>
          Ret (Some text) (set_stack (<[i := Str text]> (stack w)) w)
      | _ => Ret None w
      end
  | NoValue => Ret None w
  | BadIndex => Undefined
  end.
Definition lua_tostring : Z -> M (option string) := lua_tolstring.

Definition lua_isfunction (idx : Z) : M bool := fun w =>
  match index2adr (stack w) idx with
  | Slot i =>
      match stack w !! i with
      | Some v => Ret (is_function v) w
      | None => Undefined
      end
  | NoValue => Ret false w
  | BadIndex => Undefined
  end.

(** [lua_setglobal(L, name)] pops a value and assigns it to the global. *)
Definition lua_setglobal (name : string) : M unit := fun w =>
  match last (stack w) with
  | None => Undefined
  | Some Nil =>
      Ret tt (set_globals (delete name (globals w)) (set_stack (removelast (stack w)) w))
  | Some v =>
      Ret tt (set_globals (<[name := v]> (globals w)) (set_stack (removelast (stack w)) w))
  end.

(** [lua_register(L, n, f)] is [lua_pushcfunction(L, f)] followed by
    [lua_setglobal(L, n)]. *)
Definition lua_register (name : string) (f : cfun) : M unit :=
  exec lua_pushcfunction f in lua_setglobal name.

(** [luaL_ref(L, LUA_REGISTRYINDEX)] pops the value on top; for nil it
    returns [LUA_REFNIL], otherwise it stores the value in the registry
    under an integer key that is not in use and returns the key. *)
Definition LUA_REFNIL : Z := -1.

Definition fresh_ref (reg : gmap Z value) : Z :=
  Z.succ (foldr Z.max 0 (map_to_list reg).*1).

Definition luaL_ref : M Z := fun w =>
  match last (stack w) with
  | None => Undefined
  | Some Nil => Ret LUA_REFNIL (set_stack (removelast (stack w)) w)
  | Some v =>
      let k := fresh_ref (registry w) in
      Ret k (set_registry (<[k := v]> (registry w))
               (set_stack (removelast (stack w)) w))
  end.

(** ** The C and C++ library calls *)

(** [system(cmd)].  The library passes one command only; the value is the
    wait status, the exit code in the high byte.  What the command prints
    (the message of a failing [mkdir]) goes to the terminal of the
    process, not through [std::cerr], and is not recorded. *)
Definition system (cmd : string) : M Z := fun w =>
  let w := log (EvSystem cmd) w in
  if String.eqb cmd "mkdir -p workspace" then
    let (fs, code) := mkdir_p "workspace" (disk w) in
    Ret (code * 256) (set_disk fs w)
  else Ret (127 * 256) w.

(** [std::string s = p] for a [const char*]; a null pointer is undefined. *)
Definition std_string (p : option string) : M string :=
  match p with
  | Some s => ret (c_str s)
  | None => undefined
  end.

(** [s += p] for a [const char*]. *)
Definition std_append (s p : string) : string := s +:+ c_str p.

(** An input stream after construction: whether it is open and the bytes
    its buffer will deliver. *)
Record ifstream := Ifstream { in_is_open : bool; in_bytes : string }.

Definition ifstream_open (p : string) : M ifstream := fun w =>
  let w := log (EvOpenRead (c_str p)) w in
  match open_in (disk w) (c_str p) with
  | Some d => Ret (Ifstream true d) w
  | None => Ret (Ifstream false EmptyString) w
  end.

(** An output stream: the inode it writes to, when it is open, and
    whether no operation on it has failed so far. *)
Record ofstream := Ofstream { out_target : option (list string); out_good : bool }.

Definition out_is_open (f : ofstream) : bool :=
  match out_target f with
  | Some _ => true
  | None => false
  end.

Definition ofstream_open (p : string) : M ofstream := fun w =>
  let w := log (EvOpenWrite (c_str p)) w in
  match open_out (disk w) (c_str p) with
  | Some (q, fs) => Ret (Ofstream (Some q) true) (set_disk fs w)
  | None => Ret (Ofstream None false) w
  end.

(** [file << p] for a [const char*]: the stream afterwards.  A stream
    that is not open, or on which an operation has failed, writes
    nothing. *)
Definition ofstream_put (f : ofstream) (p : string) : M ofstream := fun w =>
  match out_target f with
  | Some q =>
      if out_good f then
        let (fs, ok) := append_file q (c_str p) (disk w) in
        Ret (Ofstream (Some q) ok) (set_disk fs w)
      else Ret f w
  | None => Ret (Ofstream None false) w
  end.

(** [file.close()]: the stream afterwards. *)
Definition ofstream_close (f : ofstream) : M ofstream :=
  ret (Ofstream None (out_good f && out_is_open f)).

(** [std::cerr << s]. *)
Definition cerr_put (s : string) : M unit :=
  modify (fun w => set_cerr (cerr w +:+ s) w).

(** ** library.cpp *)

Definition mainLuauScript : string :=
  "-- This is the main Luau script that runs the executor" +:+ newline +:+
  "local workspaceDir = 'workspace'" +:+ newline +:+
  "local function setup()" +:+ newline +:+
  "    print(" +:+ dquote +:+ "Setting up workspace..." +:+ dquote +:+ ")" +:+ newline +:+
  "    return true" +:+ newline +:+
  "end" +:+ newline +:+ newline +:+
  "-- Main function that executes when a player is detected" +:+ newline +:+
  "local function onPlayerAdded(player)" +:+ newline +:+
  "    print(" +:+ dquote +:+ "Player added: " +:+ dquote +:+ "..tostring(player))" +:+ newline +:+
  "    return true" +:+ newline +:+
  "end" +:+ newline +:+ newline +:+
  "local function initialize()" +:+ newline +:+
  "    setup()" +:+ newline +:+
  "    return onPlayerAdded" +:+ newline +:+
  "end" +:+ newline +:+ newline +:+
  "return initialize()".

(** [ensureWorkspaceDirectory] returns nothing; the status of [system]
    is dropped. *)
Definition ensureWorkspaceDirectory : M unit :=
  let* status := system "mkdir -p workspace" in
  ret tt.

(** [std::string readfile(lua_State* L)]. *)
Definition readfile : M string :=
  let* filename := lua_tostring 1 in
  match filename with
  | None =>
      exec lua_pushnil in
      exec lua_pushstring "No filename provided" in
      ret EmptyString
  | Some filename =>
      exec ensureWorkspaceDirectory in
      let fullPath := std_append "workspace/" filename in
      let* file := ifstream_open fullPath in
      if negb (in_is_open file) then
        exec lua_pushnil in
        exec lua_pushstring "Failed to open file" in
        ret EmptyString
      else
        let buffer := in_bytes file in
        exec lua_pushstring buffer in
        ret buffer
  end.

(** The lambda registered under the name [readfile]. *)
Definition readfile_lambda : M Z :=
  exec readfile in
  ret 1.

(** The lambda registered under the name [writefile].  The state of the
    stream after [file << content] and [file.close()] is not looked at. *)
Definition writefile_lambda : M Z :=
  let* filename := lua_tostring 1 in
  let* content := lua_tostring 2 in
  match filename, content with
  | Some filename, Some content =>
      exec ensureWorkspaceDirectory in
      let fullPath := std_append "workspace/" filename in
      exec system "mkdir -p workspace" in
      let* file := ofstream_open fullPath in
      if negb (out_is_open file) then
        exec lua_pushboolean 0 in
        ret 1
      else
        let* file := ofstream_put file content in
        let* file := ofstream_close file in
        exec lua_pushboolean 1 in
        ret 1
  | _, _ =>
      exec lua_pushboolean 0 in
      ret 1
  end.

Definition registerExecutorFunctions : M unit :=
  exec lua_register "readfile" CF_readfile in
  lua_register "writefile" CF_writefile.

Definition cfun_body (f : cfun) : M Z :=
  match f with
  | CF_readfile => readfile_lambda
  | CF_writefile => writefile_lambda
  end.

(** How the interpreter calls a C function: the arguments are the
    function's stack frame, and its results are the topmost [n] values of
    the frame when it returns [n]; what lies below them is discarded.  The
    caller's own frame is put back. *)
Definition call_cfunction (f : cfun) (args : list value) : M (list value) := fun w =>
  match cfun_body f (set_stack args w) with
  | Ret n w' =>
      if (0 <=? n) && (n <=? Z.of_nat (length (stack w')))
      then Ret (drop (length (stack w') - Z.to_nat n) (stack w'))
               (set_stack (stack w) w')
      else Undefined
  | Undefined => Undefined
  end.

(** ** The interpreter

    Compiling and running script text is the host interpreter's work.
    [vm_load chunkname bytes] is the outcome of loading a chunk: an error
    message, or the identity of the function that was compiled.
    [vm_call id args w] is the outcome of running that function: the error
    value it raised or the values it returned, and the world it leaves
    (a script can assign globals, call [readfile] and [writefile], print).
    The stack frame of the caller is not the script's to change:
    [lua_pcall] rebuilds it. *)
Record interpreter := Interpreter {
  vm_load : string -> string -> string + nat;
  vm_call : nat -> list value -> world -> (value + list value) * world
}.

Definition LUA_MULTRET : Z := -1.
Definition LUA_ERRRUN : Z := 2.

Definition strlen (s : string) : nat := String.length (c_str s).

(** Results as [lua_pcall] leaves them: all of them for [LUA_MULTRET],
    otherwise cut or filled with nil to [nresults]. *)
Definition adjust_results (nresults : Z) (vs : list value) : list value :=
  if nresults =? LUA_MULTRET then vs
  else take (Z.to_nat nresults) (vs ++ replicate (Z.to_nat nresults) Nil).

Section Interpreter.

Variable vm : interpreter.

(** [luau_load(L, chunkname, data, size, env)] pushes the compiled
    function and returns 0, or pushes the error message and returns 1. *)
Definition luau_load (chunkname data : string) (size : nat) (env : Z) : M Z :=
  match vm_load vm chunkname (substring 0 size data) with
  | inl msg => exec push (Str msg) in ret 1
  | inr id => exec push (LFunction id) in ret 0
  end.

(** [lua_pcall(L, nargs, nresults, 0)]: the function and its arguments
    are popped; the results, or the error value, are pushed. *)
Definition lua_pcall (nargs : nat) (nresults : Z) (errfunc : Z) : M Z := fun w =>
  let n := length (stack w) in
  let below := take (n - S nargs) (stack w) in
  if (n <? S nargs)%nat then Undefined else
  match drop (n - S nargs) (stack w) with
  | LFunction id :: args =>
      match vm_call vm id args w with
      | (inr vs, w') => Ret 0 (set_stack (below ++ adjust_results nresults vs) w')
      | (inl e, w') => Ret LUA_ERRRUN (set_stack (below ++ [e]) w')
      end
  | CFunction f :: args =>
      match call_cfunction f args w with
      | Ret vs w' => Ret 0 (set_stack (below ++ adjust_results nresults vs) w')
      | Undefined => Undefined
      end
  | v :: args =>
      Ret LUA_ERRRUN
        (set_stack (below ++ [Str ("attempt to call a " +:+ lua_typename v +:+ " value")]) w)
  | [] => Undefined
  end.

(** The file's own [luaL_dostring]. *)
Definition luaL_dostring (str : string) : M Z :=
  let* r := luau_load "string" str (strlen str) 0 in
  if negb (r =? 0) then ret 1
  else lua_pcall 0 LUA_MULTRET 0.

Definition executeMainLuau (script : string) : M bool :=
  let* r := luaL_dostring script in
  if negb (r =? 0) then
    let* p := lua_tostring (-1) in
    let* errorMsg := std_string p in
    exec cerr_put ("Failed to execute script: " +:+ errorMsg +:+ newline) in
    exec lua_pop 1 in
    ret false
  else
    let* isfun := lua_isfunction (-1) in
    if negb isfun then
      exec cerr_put ("Script did not return a function" +:+ newline) in
      exec lua_pop 1 in
      ret false
    else ret true.

(** [hookPlayerAddedEvent] returns its argument [L]; [functionRef] is a
    local variable that nothing reads. *)
Definition hookPlayerAddedEvent : M unit :=
  exec lua_pushvalue (-1) in
  let* functionRef := luaL_ref in
  ret tt.

Definition luaopen_mylibrary : M Z :=
  exec ensureWorkspaceDirectory in
  exec registerExecutorFunctions in
  let* ok := executeMainLuau mainLuauScript in
  exec (if ok then hookPlayerAddedEvent else ret tt) in
  ret 1.

End Interpreter.

(** Calling a registered function by its global name, as a script does. *)
Definition call_global (name : string) (args : list value) : M (list value) := fun w =>
  match globals w !! name with
  | Some (CFunction f) => call_cfunction f args w
  | _ => Undefined
  end.

(** ** Worlds and interpreters to evaluate the code on *)

Definition root_dir : list string := [].
Definition home : list string := ["home"].

(** An empty, writable current directory. *)
Definition fs_empty : filesys :=
  FileSys home (<[home := Directory true]> (<[root_dir := Directory true]> ∅)) 1000000.

(** [workspace] exists as a directory and holds [greet.txt]. *)
Definition fs_workspace : filesys :=
  set_node ["home"; "workspace"; "greet.txt"] (RegFile "hello world" true true)
    (set_node ["home"; "workspace"] (Directory true) fs_empty).

(** [workspace] exists as a regular file. *)
Definition fs_blocked : filesys :=
  set_node ["home"; "workspace"] (RegFile "not a directory" true true) fs_empty.

(** The current directory is read-only and has no [workspace]. *)
Definition fs_readonly : filesys :=
  FileSys home (<[home := Directory false]> (<[root_dir := Directory true]> ∅)) 1000000.

(** [workspace] exists as a directory and the disk has no free byte. *)
Definition fs_full : filesys :=
  set_free 0 (set_node ["home"; "workspace"] (Directory true) fs_empty).

(** [workspace/k] is a null device. *)
Definition fs_device : filesys :=
  set_node ["home"; "workspace"; "k"] NullDevice
    (set_node ["home"; "workspace"] (Directory true) fs_empty).

Definition world_of (fs : filesys) (st : list value) : world :=
  World st ∅ ∅ fs EmptyString [].

(** An interpreter on which every chunk fails to compile. *)
Definition vm_syntax_error : interpreter :=
  Interpreter (fun _ _ => inl "string:1: syntax error") (fun _ _ w => (inr [], w)).

(** An interpreter on which the chunk compiles and returns [vs]. *)
Definition vm_returning (vs : list value) : interpreter :=
  Interpreter (fun _ _ => inr 0%nat) (fun _ _ w => (inr vs, w)).

(** An interpreter on which the chunk compiles and raises [e]. *)
Definition vm_raising (e : value) : interpreter :=
  Interpreter (fun _ _ => inr 0%nat) (fun _ _ w => (inl e, w)).

(** The function the bundled script returns, [onPlayerAdded]. *)
Definition onPlayerAdded : value := LFunction 1.

(** ** Readings of the specification *)

Inductive error_kind := WorkspaceUnavailable.

(** Following the specification's words for the Workspace Manager
    (section 4.1): [ensure()] creates the directory, succeeds silently if
    it exists, and fails with [WorkspaceUnavailable] if the path exists as
    a non-directory or cannot be created. *)
Definition ensure_spec (fs : filesys) : error_kind + filesys :=
  let q := cwd fs ++ ["workspace"] in
  if negb (is_dir fs (cwd fs)) then inl WorkspaceUnavailable
  else match nodes fs !! q with
       | Some (Directory _) => inr fs
       | Some (RegFile _ _ _) | Some NullDevice => inl WorkspaceUnavailable
       | None =>
           if is_writable_dir fs (cwd fs)
           then inr (set_node q (Directory true) fs)
           else inl WorkspaceUnavailable
       end.


(** [writefile(k, s)] followed by [readfile(k)], as a script runs them. *)
Definition write_then_read (k s : string) : M (list value) :=
  exec call_cfunction CF_writefile [Str k; Str s] in
  call_cfunction CF_readfile [Str k].

(** An argument that [lua_tostring] turns into a string. *)
Definition convertible (v : option value) : bool :=
  match v with
  | Some (Str _) | Some (Number _) => true
  | _ => false
  end.

Definition is_string (v : option value) : bool :=
  match v with
  | Some (Str _) => true
  | _ => false
  end.

(** ** Abbreviations used in the statements *)

(** The string [lua_tostring] yields for a value, if any. *)
Definition tostring_value (v : value) : option string :=
  match v with
  | Str s => Some s
  | Number text => Some text
  | _ => None
  end.

(** The path the library builds from a file name. *)
Definition ws_path (x : string) : string := "workspace/" +:+ c_str x.

(** The world after one [system("mkdir -p workspace")]. *)
Definition after_mkdir (w : world) : world :=
  set_disk (mkdir_p "workspace" (disk w)).1 (log (EvSystem "mkdir -p workspace") w).

(** The world after the in-place conversion [lua_tostring] makes at
    stack position [i]. *)
Definition coerce_slot (i : nat) (w : world) : world :=
  match stack w !! i with
  | Some (Number text) => set_stack (<[i := Str text]> (stack w)) w
  | _ => w
  end.

(** The world [hookPlayerAddedEvent] leaves when [v] is on top. *)
Definition hooked (v : value) (w : world) : world :=
  match v with
  | Nil => w
  | _ => set_registry (<[fresh_ref (registry w) := v]> (registry w)) w
  end.

(** The world after [registerExecutorFunctions]. *)
Definition registered (w : world) : world :=
  set_globals (<["writefile" := CFunction CF_writefile]>
                 (<["readfile" := CFunction CF_readfile]> (globals w))) w.

(** The bytes [luaL_dostring] hands to the interpreter. *)
Definition chunk_bytes (script : string) : string :=
  substring 0 (strlen script) script.

(** The line [executeMainLuau] sends to [std::cerr] for an error message. *)
Definition failure_line (msg : string) : string :=
  "Failed to execute script: " +:+ c_str msg +:+ newline.

Definition not_a_function_line : string :=
  "Script did not return a function" +:+ newline.

(** A frame with the library name and the bootstrap's function on it. *)
Definition w_hook : world := world_of fs_empty [Str "mylibrary"; onPlayerAdded].

(** Two entry states of a load that differ in one thing: in the second,
    another extension already holds the registry reference 1. *)
Definition w_load : world := world_of fs_empty [Str "mylibrary"].
Definition w_load_shared : world :=
  set_registry (<[1 := Str "held by another extension"]> ∅) w_load.

(** A byte string with a NUL byte inside: a, NUL, b. *)
Definition a_NUL_b : string := String "a" (String NUL (String "b" EmptyString)).

(** A disk on which [workspace/42] holds some bytes. *)
Definition fs_42 : filesys :=
  set_node ["home"; "workspace"; "42"] (RegFile "answer" true true)
    (set_node ["home"; "workspace"] (Directory true) fs_empty).

(** The path [p] opens for writing on a regular file that the process
    may also read, and the disk has room for [bytes]: a write of [bytes]
    through the stream will not fail, and the file can be read back. *)
Definition write_lands (fs : filesys) (p bytes : string) : bool :=
  match open_out fs p with
  | Some (q, fs') =>
      match nodes fs' !! q with
      | Some (RegFile _ readable _) => readable && (len bytes <=? free fs')%N
      | _ => false
      end
  | None => false
  end.

(** The ways a bootstrap fails that [executeMainLuau] reports: started in
    [w0], the script leaves the world [w'] and the library writes [line]
    to [std::cerr].  The chunk does not compile; or it raises an error
    value that [lua_tostring] converts; or it returns one value that is
    no function. *)
Inductive bootstrap_failure (vm : interpreter) (w0 : world) : world -> string -> Prop :=
| BF_load (msg : string) :
    vm_load vm "string" (chunk_bytes mainLuauScript) = inl msg ->
    bootstrap_failure vm w0 w0 (failure_line msg)
| BF_run (id : nat) (e : value) (msg : string) (w' : world) :
    vm_load vm "string" (chunk_bytes mainLuauScript) = inr id ->
    vm_call vm id [] (set_stack (stack w0 ++ [LFunction id]) w0) = (inl e, w') ->
    tostring_value e = Some msg ->
    bootstrap_failure vm w0 w' (failure_line msg)
| BF_value (id : nat) (v : value) (w' : world) :
    vm_load vm "string" (chunk_bytes mainLuauScript) = inr id ->
    vm_call vm id [] (set_stack (stack w0 ++ [LFunction id]) w0) = (inr [v], w') ->
    is_function v = false ->
    bootstrap_failure vm w0 w' not_a_function_line.

(** ** The functions of library.cpp that are defined and not registered *)

(** [needle] is at the start of [hay]. *)
Fixpoint starts_with (needle hay : string) : bool :=
  match needle, hay with
  | EmptyString, _ => true
  | String a needle', String b hay' => Ascii.eqb a b && starts_with needle' hay'
  | String _ _, EmptyString => false
  end.

(** The search of [strstr] on the bytes of two C strings: the offset of
    the first occurrence of [needle] in [hay], if there is one. *)
Fixpoint find_first (hay needle : string) : option nat :=
  if starts_with needle hay then Some O
  else match hay with
       | EmptyString => None
       | String _ hay' => option_map S (find_first hay' needle)
       end.

(** [strstr(hay, needle)] for two [const char*]: a null pointer, or the
    offset of the match in [hay]. *)
Definition strstr (hay needle : string) : option nat :=
  find_first (c_str hay) (c_str needle).


(** [int generateScript(lua_State* L)]. *)
Definition generateScript : M Z :=
  let* template_str := lua_tostring 1 in
  match template_str with
  | None =>
      exec lua_pushnil in
      ret 1
  | Some _ =>
      let* result := std_string template_str in
      exec lua_pushstring result in
      ret 1
  end.

(** [int scanVulnerabilities(lua_State* L)]. *)
Definition scanVulnerabilities : M Z :=
  let* code := lua_tostring 1 in
  match code with
  | None =>
      exec lua_pushnil in
      ret 1
  | Some code =>
      let hasVulnerability :=
        match strstr code "while true do" with
        | Some _ => true
        | None => false
        end in
      exec lua_pushstring (if hasVulnerability
                           then "Vulnerability found: Infinite loop"
                           else "No vulnerabilities found") in
      ret 1
  end.

(** The calling convention of [call_cfunction], for any native body. *)
Definition call_native (body : M Z) (args : list value) : M (list value) := fun w =>
  match body (set_stack args w) with
  | Ret n w' =>
      if (0 <=? n) && (n <=? Z.of_nat (length (stack w')))
      then Ret (drop (length (stack w') - Z.to_nat n) (stack w'))
               (set_stack (stack w) w')
      else Undefined
  | Undefined => Undefined
  end.

(** What [generateScript] returns for an argument list. *)
Definition generated (args : list value) : value :=
  match args !! 0%nat ≫= tostring_value with
  | Some s => Str (c_str s)
  | None => Nil
  end.

(** The message [scanVulnerabilities] pushes for a piece of code. *)
Definition scan_verdict (code : string) : string :=
  match strstr code "while true do" with
  | Some _ => "Vulnerability found: Infinite loop"
  | None => "No vulnerabilities found"
  end.


(** An interpreter whose chunk looks for the two functions of the library
    among the globals: it returns [onPlayerAdded] when both are bound to
    them, and raises an error otherwise. *)
Definition vm_checking : interpreter :=
  Interpreter (fun _ _ => inr 0%nat)
    (fun _ _ w =>
       match globals w !! "readfile", globals w !! "writefile" with
       | Some (CFunction CF_readfile), Some (CFunction CF_writefile) =>
           (inr [onPlayerAdded], w)
       | _, _ => (inl (Str "attempt to call a nil value"), w)
       end).

(** The world in which [luaopen_mylibrary] has the interpreter run the
    chunk [id]. *)
Definition bootstrap_world (id : nat) (w : world) : world :=
  set_stack (stack w ++ [LFunction id]) (registered (after_mkdir w)).

(** [needle] occurs in [hay]. *)
Definition occurs (needle hay : string) : Prop :=
  exists pre post, hay = pre +:+ needle +:+ post.

(** A file name of one plain component: not empty, no slash, no NUL byte,
    and neither [.] nor [..]. *)
Fixpoint has_slash (s : string) : bool :=
  match s with
  | EmptyString => false
  | String c s' => Ascii.eqb c "/" || has_slash s'
  end.

Definition plain_name (n : string) : bool :=
  negb (String.eqb n "") && negb (String.eqb n ".") && negb (String.eqb n "..")
  && negb (has_slash n) && negb (has_NUL n).

(** Deciding the status tests [r != 0] of the C++ text. *)
Ltac status_tests :=
  repeat (progress (cbn beta iota;
                    change (negb (1 =? 0)) with true;
                    change (negb (0 =? 0)) with false;
                    change (negb (LUA_ERRRUN =? 0)) with true)).


(** * Properties *)

(** ** C strings *)

Lemma c_str_idem (s : string) : c_str (c_str s) = c_str s.
Proof.
  induction s as [|c s IH]; simpl; [reflexivity|].
  destruct (Ascii.eqb c NUL) eqn:E; simpl; [reflexivity|].
  rewrite E. now rewrite IH.
Qed.

Lemma c_str_no_NUL (s : string) : has_NUL s = false -> c_str s = s.
Proof.
  induction s as [|c s IH]; simpl; [reflexivity|].
  intros H. apply orb_false_iff in H as [Hc Hs].
  rewrite Hc. now rewrite IH.
Qed.


Lemma c_str_app (a b : string) :
  has_NUL a = false -> c_str (a +:+ b) = a +:+ c_str b.
Proof.
  induction a as [|c a IH]; intros H.
  - reflexivity.
  - change (String c a +:+ b) with (String c (a +:+ b)).
    change (String c a +:+ c_str b) with (String c (a +:+ c_str b)).
    simpl in *. apply orb_false_iff in H as [Hc Ha].
    rewrite Hc. now rewrite IH.
Qed.

Lemma c_str_workspace (x : string) :
  c_str (std_append "workspace/" x) = "workspace/" +:+ c_str x.
Proof. unfold std_append. rewrite c_str_app by reflexivity. now rewrite c_str_idem. Qed.

(** ** The stack *)

Lemma index2adr_top (st : list value) (v : value) :
  index2adr (st ++ [v]) (-1) = Slot (length st).
Proof.
  unfold index2adr. rewrite length_app. simpl.
  replace (0 <? -1) with false by reflexivity.
  replace (-1 <? 0) with true by reflexivity. simpl.
  destruct (Z.leb_spec (- Z.of_nat (length st + 1)) (-1)); [|lia].
  f_equal. lia.
Qed.

Lemma index2adr_empty_top : index2adr [] (-1) = BadIndex.
Proof. reflexivity. Qed.

Lemma lookup_top (st : list value) (v : value) : (st ++ [v]) !! length st = Some v.
Proof. apply list_lookup_middle. reflexivity. Qed.

Lemma take_top (st : list value) (v : value) :
  take (length (st ++ [v]) - 1) (st ++ [v]) = st.
Proof.
  rewrite length_app. simpl.
  replace (length st + 1 - 1)%nat with (length st) by lia.
  now rewrite take_app_length.
Qed.

Lemma nonempty_snoc (st : list value) : st <> [] -> exists st' v, st = st' ++ [v].
Proof.
  intros H. destruct (exists_last H) as (st' & v & ->). eauto.
Qed.

Lemma system_mkdir (w : world) :
  system "mkdir -p workspace" w
  = Ret ((mkdir_p "workspace" (disk w)).2 * 256) (after_mkdir w).
Proof.
  unfold system, after_mkdir. rewrite String.eqb_refl.
  destruct w as [st g r d c t]; simpl.
  now destruct (mkdir_p "workspace" d).
Qed.

Lemma ensure_run (w : world) :
  ensureWorkspaceDirectory w = Ret tt (after_mkdir w).
Proof.
  unfold ensureWorkspaceDirectory, bind. now rewrite system_mkdir.
Qed.

Lemma index2adr_pos (st : list value) (i : nat) :
  (i < length st)%nat -> index2adr st (Z.of_nat (S i)) = Slot i.
Proof.
  intros H. unfold index2adr.
  destruct (Z.ltb_spec 0 (Z.of_nat (S i))); [|lia].
  destruct (Z.leb_spec (Z.of_nat (S i)) (Z.of_nat (length st))); [|lia].
  f_equal. lia.
Qed.

Lemma index2adr_none (st : list value) (i : nat) :
  (length st <= i)%nat -> index2adr st (Z.of_nat (S i)) = NoValue.
Proof.
  intros H. unfold index2adr.
  destruct (Z.ltb_spec 0 (Z.of_nat (S i))); [|lia].
  destruct (Z.leb_spec (Z.of_nat (S i)) (Z.of_nat (length st))); [lia|].
  reflexivity.
Qed.

(** [lua_tostring] at a positive index, on any frame. *)
Lemma tostring_pos (i : nat) (w : world) :
  lua_tostring (Z.of_nat (S i)) w =
  match stack w !! i with
  | Some (Str s) => Ret (Some s) w
  | Some (Number text) =>
      Ret (Some text) (set_stack (<[i := Str text]> (stack w)) w)
  | _ => Ret None w
  end.
Proof.
  unfold lua_tostring, lua_tolstring.
  destruct (stack w !! i) as [v|] eqn:E.
  - rewrite index2adr_pos by (eapply lookup_lt_Some; eassumption).
    now rewrite E.
  - rewrite index2adr_none by (eapply lookup_ge_None; eassumption).
    reflexivity.
Qed.

Lemma tostring_pos_value (i : nat) (w : world) :
  lua_tostring (Z.of_nat (S i)) w
  = Ret (stack w !! i ≫= tostring_value) (coerce_slot i w).
Proof.
  rewrite tostring_pos. unfold coerce_slot.
  destruct (stack w !! i) as [[]|]; reflexivity.
Qed.

Lemma coerce_slot_value (i j : nat) (w : world) :
  stack (coerce_slot i w) !! j ≫= tostring_value = stack w !! j ≫= tostring_value.
Proof.
  unfold coerce_slot. destruct (stack w !! i) as [v|] eqn:E; [|reflexivity].
  destruct v; try reflexivity. simpl.
  destruct (decide (i = j)) as [->|Hne].
  - rewrite list_lookup_insert_eq by (eapply lookup_lt_Some; eassumption).
    now rewrite E.
  - now rewrite list_lookup_insert_ne.
Qed.

Lemma coerce_slot_frame (i : nat) (w : world) :
  set_stack (stack w) (coerce_slot i w) = w.
Proof.
  unfold coerce_slot. destruct w as [st g r d c t]; simpl.
  destruct (st !! i) as [[]|]; reflexivity.
Qed.

(** ** The library functions, run on an arbitrary world *)

Lemma readfile_run (w : world) :
  readfile w =
  match stack w !! 0%nat ≫= tostring_value with
  | None =>
      Ret EmptyString (set_stack (stack w ++ [Nil; Str "No filename provided"]) w)
  | Some x =>
      let w1 := log (EvOpenRead (ws_path x)) (after_mkdir (coerce_slot 0 w)) in
      match open_in (disk w1) (ws_path x) with
      | Some d => Ret d (set_stack (stack w1 ++ [Str (c_str d)]) w1)
      | None =>
          Ret EmptyString (set_stack (stack w1 ++ [Nil; Str "Failed to open file"]) w1)
      end
  end.
Proof.
  unfold readfile, bind. change 1 with (Z.of_nat 1). rewrite tostring_pos_value.
  destruct (stack w !! 0%nat ≫= tostring_value) as [x|] eqn:E.
  - rewrite ensure_run. unfold ifstream_open. rewrite c_str_workspace.
    fold (ws_path x). cbv zeta.
    destruct (open_in _ _) as [d|]; simpl.
    + unfold lua_pushstring, push, modify, ret. reflexivity.
    + unfold lua_pushnil, lua_pushstring, push, modify, ret, set_stack. simpl.
      now rewrite <- app_assoc.
  - unfold coerce_slot. destruct (stack w !! 0%nat) as [[]|]; try discriminate;
    unfold lua_pushnil, lua_pushstring, push, modify, ret, set_stack; simpl;
    now rewrite <- app_assoc.
Qed.

Lemma drop_top (st : list value) (v : value) :
  drop (length (st ++ [v]) - Z.to_nat 1) (st ++ [v]) = [v].
Proof.
  rewrite length_app.
  replace (length st + length [v] - Z.to_nat 1)%nat with (length st)
    by (simpl; lia).
  now rewrite drop_app_length.
Qed.

Lemma top_counts (st : list value) (v : value) :
  (1 <=? Z.of_nat (length (st ++ [v]))) = true.
Proof. rewrite length_app. simpl. apply Z.leb_le. lia. Qed.

Lemma one_result (st : list value) (v : value) :
  (0 <=? 1) && (1 <=? Z.of_nat (length (st ++ [v]))) = true.
Proof.
  rewrite length_app. simpl.
  apply Z.leb_le. lia.
Qed.

(** A frame that ends in [v], returned from with one result. *)
Lemma call_returns_top (f : cfun) (args st : list value) (v : value) (w w' : world) :
  cfun_body f (set_stack args w) = Ret 1 w' ->
  stack w' = st ++ [v] ->
  call_cfunction f args w = Ret [v] (set_stack (stack w) w').
Proof.
  intros Hrun Hst. unfold call_cfunction. rewrite Hrun, Hst.
  now rewrite one_result, drop_top.
Qed.

Lemma frame_restored (args : list value) (w : world) :
  set_stack (stack w) (set_stack args w) = w.
Proof. now destruct w. Qed.

Lemma coerce_slot_cases (i : nat) (w : world) :
  exists st', coerce_slot i w = set_stack st' w.
Proof.
  unfold coerce_slot.
  destruct (stack w !! i) as [[]|]; eauto; exists (stack w); now destruct w.
Qed.

Lemma call_readfile (args : list value) (w : world) :
  call_cfunction CF_readfile args w =
  match args !! 0%nat ≫= tostring_value with
  | None => Ret [Str "No filename provided"] w
  | Some x =>
      let w1 := log (EvOpenRead (ws_path x)) (after_mkdir w) in
      match open_in (disk w1) (ws_path x) with
      | Some d => Ret [Str (c_str d)] w1
      | None => Ret [Str "Failed to open file"] w1
      end
  end.
Proof.
  destruct w as [st g r d c t].
  pose proof (readfile_run (set_stack args (World st g r d c t))) as Hrun.
  destruct (coerce_slot_cases 0 (set_stack args (World st g r d c t))) as [st' Hc].
  rewrite Hc in Hrun. clear Hc.
  change (stack (set_stack args (World st g r d c t))) with args in Hrun.
  destruct (args !! 0%nat ≫= tostring_value) as [x|] eqn:E.
  - cbv zeta in *.
    change (disk (log (EvOpenRead (ws_path x))
              (after_mkdir (set_stack st' (set_stack args (World st g r d c t))))))
      with (disk (log (EvOpenRead (ws_path x)) (after_mkdir (World st g r d c t)))) in Hrun.
    destruct (open_in _ (ws_path x)) as [data|].
    + erewrite call_returns_top;
        [ | unfold cfun_body, readfile_lambda, bind; rewrite Hrun; reflexivity
          | reflexivity ].
      reflexivity.
    + erewrite call_returns_top with (st := _ ++ [Nil]);
        [ | unfold cfun_body, readfile_lambda, bind; rewrite Hrun; reflexivity
          | simpl; rewrite <- app_assoc; reflexivity ].
      reflexivity.
  - erewrite call_returns_top with (st := args ++ [Nil]);
      [ | unfold cfun_body, readfile_lambda, bind; rewrite Hrun; reflexivity
        | simpl; rewrite <- app_assoc; reflexivity ].
    reflexivity.
Qed.

Lemma call_writefile (args : list value) (w : world) :
  call_cfunction CF_writefile args w =
  match args !! 0%nat ≫= tostring_value, args !! 1%nat ≫= tostring_value with
  | Some x, Some c =>
      let w1 := log (EvOpenWrite (ws_path x)) (after_mkdir (after_mkdir w)) in
      match open_out (disk w1) (ws_path x) with
      | Some (q, fs) => Ret [Boolean true] (set_disk (append_file q (c_str c) fs).1 w1)
      | None => Ret [Boolean false] w1
      end
  | _, _ => Ret [Boolean false] w
  end.
Proof.
  destruct w as [st g r d c t].
  unfold call_cfunction, cfun_body, writefile_lambda, bind.
  change 1 with (Z.of_nat 1) at 1. change 2 with (Z.of_nat 2).
  rewrite tostring_pos_value. cbn beta iota.
  rewrite tostring_pos_value. cbn beta iota.
  rewrite coerce_slot_value.
  change (stack (set_stack args (World st g r d c t))) with args.
  destruct (coerce_slot_cases 0 (set_stack args (World st g r d c t))) as [st0 ->].
  destruct (coerce_slot_cases 1 (set_stack st0 (set_stack args (World st g r d c t))))
    as [st1 ->].
  destruct (args !! 0%nat ≫= tostring_value) as [x|];
    [destruct (args !! 1%nat ≫= tostring_value) as [content|]|].
  - rewrite ensure_run, system_mkdir. unfold ofstream_open.
    rewrite c_str_workspace. fold (ws_path x). cbv zeta.
    change (disk (log (EvOpenWrite (ws_path x)) (after_mkdir (after_mkdir
              (set_stack st1 (set_stack st0 (set_stack args (World st g r d c t))))))))
      with (disk (log (EvOpenWrite (ws_path x))
              (after_mkdir (after_mkdir (World st g r d c t))))).
    destruct (open_out _ (ws_path x)) as [[q fs]|]; simpl.
    + unfold ofstream_put. cbn [out_target out_good disk set_disk].
      destruct (append_file q (c_str content) fs) as [fs2 ok]. simpl.
      rewrite top_counts, drop_top. reflexivity.
    + rewrite top_counts, drop_top. reflexivity.
  - simpl. rewrite top_counts, drop_top. reflexivity.
  - destruct (args !! 1%nat ≫= tostring_value); simpl;
      rewrite top_counts, drop_top; reflexivity.
Qed.

(** ** The file system *)

Lemma cwd_child_neq (fs : filesys) (name : string) : cwd fs ++ [name] <> cwd fs.
Proof.
  intros H. apply (f_equal length) in H. rewrite length_app in H. simpl in H. lia.
Qed.

(** [mkdir -p] a second time changes nothing and exits the same way. *)
Lemma mkdir_p_idem (name : string) (fs : filesys) :
  mkdir_p name (mkdir_p name fs).1 = mkdir_p name fs.
Proof.
  unfold mkdir_p.
  destruct (is_dir fs (cwd fs)) eqn:Hcwd; simpl; [|now rewrite Hcwd].
  destruct (nodes fs !! (cwd fs ++ [name])) as [[data r wr|wr|]|] eqn:Hq; simpl.
  - now rewrite Hcwd, Hq.
  - now rewrite Hcwd, Hq.
  - now rewrite Hcwd, Hq.
  - destruct (is_writable_dir fs (cwd fs)) eqn:Hw; simpl.
    + unfold is_dir, set_node in *. simpl.
      rewrite lookup_insert_ne by apply cwd_child_neq.
      destruct (nodes fs !! cwd fs) as [[| |]|]; try discriminate.
      now rewrite lookup_insert_eq.
    + now rewrite Hcwd, Hq, Hw.
Qed.

(** [mkdir -p workspace] leaves a disk alone on which the directory is there. *)
Lemma mkdir_p_present (name : string) (fs : filesys) :
  is_dir fs (cwd fs) = true -> is_dir fs (cwd fs ++ [name]) = true ->
  mkdir_p name fs = (fs, 0).
Proof.
  intros Hcwd Hq. unfold mkdir_p. rewrite Hcwd.
  unfold is_dir in Hq.
  destruct (nodes fs !! (cwd fs ++ [name])) as [[| |]|]; try discriminate; reflexivity.
Qed.

(** Path resolution looks at the disk only to ask which paths are
    directories. *)
Lemma resolve_ext (fs1 fs2 : filesys) (p : string) :
  cwd fs1 = cwd fs2 -> (forall d, is_dir fs1 d = is_dir fs2 d) ->
  resolve fs1 p = resolve fs2 p.
Proof.
  intros Hcwd Hdir. unfold resolve. rewrite Hcwd.
  destruct (String.length p <? PATH_MAX)%nat; [|reflexivity].
  generalize (Some (cwd fs2)). induction (components p) as [|name rest IH]; intros cur.
  - reflexivity.
  - simpl. rewrite <- IH. f_equal.
    destruct cur as [d|]; [|reflexivity]. simpl. now rewrite Hdir.
Qed.

Lemma fold_walk_None (fs : filesys) (names : list string) :
  fold_left (walk fs) names None = None.
Proof. induction names; simpl; auto. Qed.

Lemma fold_walk_Some (fs : filesys) (names : list string) (d q : list string) :
  names <> [] -> fold_left (walk fs) names (Some d) = Some q -> is_dir fs d = true.
Proof.
  destruct names as [|name rest]; [congruence|]. intros _. simpl.
  destruct (is_dir fs d); [reflexivity|].
  now rewrite fold_walk_None.
Qed.

Lemma components_nonempty (p : string) : components p <> [].
Proof.
  destruct p as [|c p]; simpl; [congruence|].
  destruct (Ascii.eqb c "/"); [congruence|].
  destruct (components p); congruence.
Qed.

Lemma components_ws_path (x : string) :
  components (ws_path x) = "workspace" :: components (c_str x).
Proof. unfold ws_path. cbv [String.append]. reflexivity. Qed.

(** The first step of every path the library builds. *)
Lemma walk_workspace (fs : filesys) :
  walk fs (Some (cwd fs)) "workspace"
  = if is_dir fs (cwd fs) then Some (cwd fs ++ ["workspace"]) else None.
Proof. reflexivity. Qed.

(** A path under [workspace/] resolves only if [workspace] is a directory
    of the current directory. *)
Lemma resolve_ws_path (fs : filesys) (x : string) (q : list string) :
  resolve fs (ws_path x) = Some q ->
  is_dir fs (cwd fs) = true /\ is_dir fs (cwd fs ++ ["workspace"]) = true.
Proof.
  unfold resolve. destruct (String.length (ws_path x) <? PATH_MAX)%nat; [|discriminate].
  rewrite components_ws_path. cbn [fold_left]. rewrite walk_workspace.
  destruct (is_dir fs (cwd fs)) eqn:Hcwd; [|now rewrite fold_walk_None].
  intros H. split; [reflexivity|].
  eapply fold_walk_Some; [apply components_nonempty|eassumption].
Qed.

Lemma is_dir_set_file (fs : filesys) (q : list string) (data : string) (r wr : bool) :
  is_dir fs q = false ->
  forall d, is_dir (set_node q (RegFile data r wr) fs) d = is_dir fs d.
Proof.
  intros Hq d. unfold is_dir, set_node in *. simpl.
  destruct (decide (q = d)) as [->|Hne].
  - rewrite lookup_insert_eq. now rewrite Hq.
  - now rewrite lookup_insert_ne.
Qed.

Lemma substring_all (s : string) : substring 0 (String.length s) s = s.
Proof. induction s as [|c s IH]; [reflexivity|]. simpl. now rewrite IH. Qed.

Lemma substring_short (n : nat) (s : string) :
  (String.length (substring 0 n s) <= n)%nat.
Proof.
  revert s. induction n as [|n IH]; intros [|c s]; simpl; try lia.
  specialize (IH s). lia.
Qed.

(** What a successful [open_out] leaves: the inode it is open on is no
    directory, it is the null device or an empty regular file, and
    nothing else of the tree has changed. *)
Lemma open_out_Some (fs fs' : filesys) (p : string) (q : list string) :
  open_out fs p = Some (q, fs') ->
  resolve fs p = Some q /\ is_dir fs q = false /\
  cwd fs' = cwd fs /\ (forall d, is_dir fs' d = is_dir fs d) /\
  (forall q', q' <> q -> nodes fs' !! q' = nodes fs !! q') /\
  ((nodes fs' !! q = Some NullDevice /\ fs' = fs) \/
   exists r wr, nodes fs' !! q = Some (RegFile EmptyString r wr)).
Proof.
  unfold open_out. destruct (resolve fs p) as [q0|]; [|discriminate].
  destruct (nodes fs !! q0) as [[data r wr|wr|]|] eqn:Hq.
  - destruct wr; [|discriminate]. intros [= <- <-].
    assert (Hnd : is_dir fs q0 = false) by (unfold is_dir; now rewrite Hq).
    split; [reflexivity|]. split; [assumption|]. split; [reflexivity|].
    split; [apply (is_dir_set_file fs q0 EmptyString r true Hnd)|].
    split.
    + intros q' Hne. cbn [nodes set_free set_node]. now rewrite lookup_insert_ne.
    + right. exists r, true. cbn [nodes set_free set_node]. apply lookup_insert_eq.
  - discriminate.
  - intros [= <- <-]. unfold is_dir. rewrite Hq. repeat split; auto.
  - destruct (is_writable_dir fs (removelast q0)); [|discriminate].
    intros [= <- <-].
    assert (Hnd : is_dir fs q0 = false) by (unfold is_dir; now rewrite Hq).
    split; [reflexivity|]. split; [assumption|]. split; [reflexivity|].
    split; [apply (is_dir_set_file fs q0 EmptyString true true Hnd)|].
    split.
    + intros q' Hne. cbn [nodes set_node]. now rewrite lookup_insert_ne.
    + right. exists true, true. cbn [nodes set_node]. apply lookup_insert_eq.
Qed.

(** A write changes the inode written to, and no other; no directory
    appears or disappears. *)
Lemma append_file_frame (q : list string) (bytes : string) (fs : filesys) :
  cwd (append_file q bytes fs).1 = cwd fs /\
  (forall d, is_dir (append_file q bytes fs).1 d = is_dir fs d) /\
  (forall q', q' <> q -> nodes (append_file q bytes fs).1 !! q' = nodes fs !! q').
Proof.
  unfold append_file.
  destruct (nodes fs !! q) as [[data r wr|wr|]|] eqn:Hq; cbn [fst];
    try (repeat split; reflexivity).
  split; [reflexivity|]. split.
  - intros d. apply (is_dir_set_file fs q _ r wr). unfold is_dir. now rewrite Hq.
  - intros q' Hne. cbn [nodes set_free set_node]. now rewrite lookup_insert_ne.
Qed.

(** A write that fits is stored in full. *)
Lemma append_file_fits (q : list string) (bytes d : string) (r wr : bool) (fs : filesys) :
  nodes fs !! q = Some (RegFile d r wr) -> (len bytes <=? free fs)%N = true ->
  nodes (append_file q bytes fs).1 !! q = Some (RegFile (d +:+ bytes) r wr) /\
  (append_file q bytes fs).2 = true.
Proof.
  intros Hq Hfit. unfold append_file. rewrite Hq. cbn [fst snd].
  split; [|assumption].
  apply N.leb_le in Hfit. rewrite N.min_l by assumption.
  unfold len. rewrite Nat2N.id, substring_all.
  cbn [nodes set_free set_node]. apply lookup_insert_eq.
Qed.

(** The disk after a successful [open_out] and a write resolves every
    path as the disk before. *)
Lemma resolve_after_write (fs fs' : filesys) (p p' : string) (q : list string)
    (bytes : string) :
  open_out fs p = Some (q, fs') ->
  resolve (append_file q bytes fs').1 p' = resolve fs p'.
Proof.
  intros H. apply open_out_Some in H as (_ & _ & Hcwd & Hdir & _).
  destruct (append_file_frame q bytes fs') as (Hcwd' & Hdir' & _).
  apply resolve_ext; [congruence|]. intros d. now rewrite Hdir', Hdir.
Qed.

(** What was written in full through a stream on a readable regular file
    is what a later [open_in] of the same path delivers. *)
Lemma open_in_after_write (fs fs' : filesys) (p : string) (q : list string)
    (bytes d : string) (wr : bool) :
  open_out fs p = Some (q, fs') ->
  nodes fs' !! q = Some (RegFile d true wr) ->
  (len bytes <=? free fs')%N = true ->
  open_in (append_file q bytes fs').1 p = Some bytes.
Proof.
  intros Hopen Hq Hfit. unfold open_in.
  rewrite (resolve_after_write _ _ _ _ _ _ Hopen).
  apply open_out_Some in Hopen as (Hres & _ & _ & _ & _ & Hnode).
  rewrite Hres.
  assert (d = EmptyString) as ->
    by (destruct Hnode as [[Hn _]|(r' & wr' & Hn)]; congruence).
  destruct (append_file_fits q bytes EmptyString true wr fs' Hq Hfit) as [-> _].
  reflexivity.
Qed.

(** ** Taking the registry reference *)

Lemma fresh_ref_above (reg : gmap Z value) (k : Z) (v : value) :
  reg !! k = Some v -> k < fresh_ref reg.
Proof.
  intros H. unfold fresh_ref.
  apply elem_of_map_to_list in H.
  induction (map_to_list reg) as [|[k' v'] l IH]; [inversion H|].
  rewrite fmap_cons. cbn [foldr fst].
  apply elem_of_cons in H as [[= <- <-]|H]; [lia|].
  specialize (IH H). lia.
Qed.

(** The key [luaL_ref] picks is not in use. *)
Lemma fresh_ref_unused (reg : gmap Z value) : reg !! fresh_ref reg = None.
Proof.
  destruct (reg !! fresh_ref reg) as [v|] eqn:E; [|reflexivity].
  apply fresh_ref_above in E. lia.
Qed.

Lemma fresh_ref_positive (reg : gmap Z value) : 0 < fresh_ref reg.
Proof.
  unfold fresh_ref. induction (map_to_list reg) as [|[k v] l IH];
    [cbn; lia|rewrite fmap_cons; cbn [foldr fst]; lia].
Qed.

Lemma hook_run (st : list value) (v : value) (w : world) :
  stack w = st ++ [v] -> hookPlayerAddedEvent w = Ret tt (hooked v w).
Proof.
  intros Hst. destruct w as [st0 g r d c t]. simpl in Hst. subst st0.
  unfold hookPlayerAddedEvent, bind, lua_pushvalue. simpl.
  rewrite index2adr_top, lookup_top.
  unfold push, modify, luaL_ref. simpl.
  rewrite last_snoc, removelast_last.
  destruct v; reflexivity.
Qed.

Lemma hook_empty (w : world) : stack w = [] -> hookPlayerAddedEvent w = Undefined.
Proof.
  intros Hst. unfold hookPlayerAddedEvent, bind, lua_pushvalue. now rewrite Hst.
Qed.

Lemma hooked_stack (v : value) (w : world) : stack (hooked v w) = stack w.
Proof. now destruct v. Qed.

(** ** Running the bootstrap *)

Lemma register_run (w : world) :
  registerExecutorFunctions w = Ret tt (registered w).
Proof.
  destruct w as [st g r d c t].
  unfold registerExecutorFunctions, lua_register, bind, lua_pushcfunction, push,
    modify, lua_setglobal. simpl.
  rewrite last_snoc, removelast_last. simpl.
  rewrite last_snoc, removelast_last. reflexivity.
Qed.

Lemma pop_top (st : list value) (v : value) (w : world) :
  stack w = st ++ [v] -> lua_pop 1 w = Ret tt (set_stack st w).
Proof.
  intros Hst. unfold lua_pop. rewrite Hst, take_top.
  rewrite length_app.
  destruct (Nat.leb_spec 1 (length st + length [v])); [reflexivity|simpl in *; lia].
Qed.

Lemma tostring_top (st : list value) (v : value) (w : world) :
  stack w = st ++ [v] ->
  lua_tostring (-1) w
  = Ret (tostring_value v)
        (match v with
         | Number text => set_stack (st ++ [Str text]) w
         | _ => w
         end).
Proof.
  intros Hst. unfold lua_tostring, lua_tolstring.
  rewrite Hst, index2adr_top, lookup_top.
  destruct v; try reflexivity. simpl.
  replace (length st) with (length st + 0)%nat by lia.
  now rewrite insert_app_r.
Qed.

Lemma isfunction_top (st : list value) (v : value) (w : world) :
  stack w = st ++ [v] -> lua_isfunction (-1) w = Ret (is_function v) w.
Proof.
  intros Hst. unfold lua_isfunction. now rewrite Hst, index2adr_top, lookup_top.
Qed.

Lemma isfunction_empty (w : world) :
  stack w = [] -> lua_isfunction (-1) w = Undefined.
Proof. intros Hst. unfold lua_isfunction. now rewrite Hst. Qed.

Lemma pcall_chunk (vm : interpreter) (id : nat) (w : world) :
  lua_pcall vm 0 LUA_MULTRET 0 (set_stack (stack w ++ [LFunction id]) w) =
  match vm_call vm id [] (set_stack (stack w ++ [LFunction id]) w) with
  | (inr vs, w') => Ret 0 (set_stack (stack w ++ vs) w')
  | (inl e, w') => Ret LUA_ERRRUN (set_stack (stack w ++ [e]) w')
  end.
Proof.
  unfold lua_pcall.
  change (stack (set_stack (stack w ++ [LFunction id]) w)) with (stack w ++ [LFunction id]).
  rewrite take_top. rewrite length_app.
  replace (length (stack w) + length [LFunction id] - 1)%nat with (length (stack w))
    by (simpl; lia).
  rewrite drop_app_length.
  destruct (Nat.ltb_spec (length (stack w) + length [LFunction id]) 1);
    [simpl in *; lia|].
  reflexivity.
Qed.

(** The chunk does not compile. *)
Lemma execute_load_error (vm : interpreter) (script msg : string) (w : world) :
  vm_load vm "string" (chunk_bytes script) = inl msg ->
  executeMainLuau vm script w = Ret false (set_cerr (cerr w +:+ failure_line msg) w).
Proof.
  intros Hload. unfold executeMainLuau, luaL_dostring, luau_load, bind.
  fold (chunk_bytes script). rewrite Hload.
  unfold push, modify, ret. status_tests.
  rewrite (tostring_top (stack w) (Str msg)) by reflexivity.
  cbn beta iota. unfold std_string, tostring_value, ret, cerr_put, modify.
  rewrite (pop_top (stack w) (Str msg)) by reflexivity.
  destruct w; reflexivity.
Qed.

(** The chunk compiles and raises the error value [e]. *)
Lemma execute_run_error (vm : interpreter) (script : string) (id : nat)
    (e : value) (w w' : world) :
  vm_load vm "string" (chunk_bytes script) = inr id ->
  vm_call vm id [] (set_stack (stack w ++ [LFunction id]) w) = (inl e, w') ->
  executeMainLuau vm script w =
  match tostring_value e with
  | Some msg => Ret false (set_cerr (cerr w' +:+ failure_line msg) (set_stack (stack w) w'))
  | None => Undefined
  end.
Proof.
  intros Hload Hcall. unfold executeMainLuau, luaL_dostring, luau_load, bind.
  fold (chunk_bytes script). rewrite Hload.
  unfold push, modify, ret. status_tests.
  rewrite pcall_chunk, Hcall. status_tests.
  rewrite (tostring_top (stack w) e) by reflexivity.
  destruct e; try reflexivity.
  - cbn beta iota. unfold std_string, tostring_value, ret, cerr_put, modify.
    rewrite (pop_top (stack w) (Str text)) by reflexivity.
    destruct w'; reflexivity.
  - cbn beta iota. unfold std_string, tostring_value, ret, cerr_put, modify.
    rewrite (pop_top (stack w) (Str s)) by reflexivity.
    destruct w'; reflexivity.
Qed.

(** The chunk compiles and returns the values [vs]. *)
Lemma execute_returns (vm : interpreter) (script : string) (id : nat)
    (vs : list value) (w w' : world) :
  vm_load vm "string" (chunk_bytes script) = inr id ->
  vm_call vm id [] (set_stack (stack w ++ [LFunction id]) w) = (inr vs, w') ->
  executeMainLuau vm script w =
  match last (stack w ++ vs) with
  | None => Undefined
  | Some v =>
      if is_function v then Ret true (set_stack (stack w ++ vs) w')
      else Ret false (set_cerr (cerr w' +:+ not_a_function_line)
                        (set_stack (removelast (stack w ++ vs)) w'))
  end.
Proof.
  intros Hload Hcall. unfold executeMainLuau, luaL_dostring, luau_load, bind.
  fold (chunk_bytes script). rewrite Hload.
  unfold push, modify, ret. status_tests.
  rewrite pcall_chunk, Hcall. status_tests.
  destruct (stack w ++ vs) as [|v0 l0 _] using rev_ind.
  - now rewrite isfunction_empty.
  - rewrite (isfunction_top l0 v0) by reflexivity.
    rewrite last_snoc, removelast_last.
    destruct (is_function v0); [reflexivity|].
    cbn [negb]. cbn beta iota. unfold cerr_put, modify. cbn beta iota.
    rewrite (pop_top l0 v0) by reflexivity.
    destruct w'; reflexivity.
Qed.

Lemma luaopen_run (vm : interpreter) (w : world) :
  luaopen_mylibrary vm w =
  match executeMainLuau vm mainLuauScript (registered (after_mkdir w)) with
  | Ret true w' =>
      match hookPlayerAddedEvent w' with
      | Ret _ w'' => Ret 1 w''
      | Undefined => Undefined
      end
  | Ret false w' => Ret 1 w'
  | Undefined => Undefined
  end.
Proof.
  unfold luaopen_mylibrary, bind. rewrite ensure_run, register_run.
  destruct (executeMainLuau _ _ _) as [[] w'|]; reflexivity.
Qed.

(** * The claims *)

(** C10.  [hookPlayerAddedEvent] leaves the interpreter's value stack as
    it found it: [lua_pushvalue(L, -1)] pushes one duplicate of the value
    on top, [luaL_ref] pops that duplicate, and the stack after the call
    is the stack before it, slot for slot.  (The function reads the top of
    the stack, so the stack is not empty.) *)
Theorem hookPlayerAddedEvent_stack_neutral (w : world) :
  stack w <> [] ->
  exists v w1 k w2,
    last (stack w) = Some v /\
    lua_pushvalue (-1) w = Ret tt w1 /\ stack w1 = stack w ++ [v] /\
    luaL_ref w1 = Ret k w2 /\ stack w2 = stack w /\
    hookPlayerAddedEvent w = Ret tt w2.
Proof.
  intros Hne. destruct (nonempty_snoc _ Hne) as (st & v & Hst).
  pose proof (hook_run st v w Hst) as Hhook.
  destruct w as [st0 g r d c t]. cbn [stack] in *. subst st0.
  set (w := World (st ++ [v]) g r d c t) in *.
  exists v, (set_stack ((st ++ [v]) ++ [v]) w).
  exists (match v with Nil => LUA_REFNIL | _ => fresh_ref r end).
  exists (hooked v w).
  repeat split.
  - apply last_snoc.
  - unfold lua_pushvalue. cbn [stack w]. now rewrite index2adr_top, lookup_top.
  - unfold luaL_ref. cbn [stack set_stack]. rewrite last_snoc, removelast_last.
    destruct v; reflexivity.
  - apply hooked_stack.
  - exact Hhook.
Qed.

Lemma hookPlayerAddedEvent_stack_neutral_witness :
  exists v w1 k w2,
    last (stack w_hook) = Some v /\
    lua_pushvalue (-1) w_hook = Ret tt w1 /\ stack w1 = stack w_hook ++ [v] /\
    luaL_ref w1 = Ret k w2 /\ stack w2 = stack w_hook /\
    hookPlayerAddedEvent w_hook = Ret tt w2.
Proof.
  apply (hookPlayerAddedEvent_stack_neutral w_hook). discriminate.
Defined.

(** ** The load, case by case *)

Lemma luaopen_load_error (vm : interpreter) (msg : string) (w : world) :
  vm_load vm "string" (chunk_bytes mainLuauScript) = inl msg ->
  luaopen_mylibrary vm w
  = Ret 1 (set_cerr (cerr w +:+ failure_line msg) (registered (after_mkdir w))).
Proof.
  intros Hload. rewrite luaopen_run.
  now rewrite (execute_load_error vm _ msg) by assumption.
Qed.

Lemma luaopen_run_error (vm : interpreter) (id : nat) (e : value) (w w' : world) :
  vm_load vm "string" (chunk_bytes mainLuauScript) = inr id ->
  vm_call vm id [] (set_stack (stack w ++ [LFunction id]) (registered (after_mkdir w)))
  = (inl e, w') ->
  luaopen_mylibrary vm w =
  match tostring_value e with
  | Some msg => Ret 1 (set_cerr (cerr w' +:+ failure_line msg) (set_stack (stack w) w'))
  | None => Undefined
  end.
Proof.
  intros Hload Hcall. rewrite luaopen_run.
  rewrite (execute_run_error vm _ id e _ w') by assumption.
  now destruct (tostring_value e).
Qed.

Lemma luaopen_returns (vm : interpreter) (id : nat) (vs : list value) (w w' : world) :
  vm_load vm "string" (chunk_bytes mainLuauScript) = inr id ->
  vm_call vm id [] (set_stack (stack w ++ [LFunction id]) (registered (after_mkdir w)))
  = (inr vs, w') ->
  luaopen_mylibrary vm w =
  match last (stack w ++ vs) with
  | None => Undefined
  | Some v =>
      if is_function v then Ret 1 (hooked v (set_stack (stack w ++ vs) w'))
      else Ret 1 (set_cerr (cerr w' +:+ not_a_function_line)
                    (set_stack (removelast (stack w ++ vs)) w'))
  end.
Proof.
  intros Hload Hcall. rewrite luaopen_run.
  rewrite (execute_returns vm _ id vs _ w') by assumption.
  change (stack (registered (after_mkdir w))) with (stack w).
  destruct (stack w ++ vs) as [|v l _] using rev_ind; [reflexivity|].
  rewrite last_snoc, removelast_last.
  destruct (is_function v); [|reflexivity].
  now rewrite (hook_run l v) by reflexivity.
Qed.

(** C2.  A failing [readfile] does not show the script two values.  The
    native function pushes nil and the message, but the registered lambda
    returns the count 1, so the script receives one value, the message:
    for a missing or unusable first argument, and for a file that cannot
    be opened. *)
Theorem readfile_failure_one_value :
  (forall (args : list value) (w : world),
     convertible (args !! 0%nat) = false ->
     readfile_lambda (set_stack args w)
     = Ret 1 (set_stack (args ++ [Nil; Str "No filename provided"]) w) /\
     call_cfunction CF_readfile args w = Ret [Str "No filename provided"] w) /\
  (forall (x : string) (w : world),
     open_in (disk (after_mkdir w)) (ws_path x) = None ->
     call_cfunction CF_readfile [Str x] w
     = Ret [Str "Failed to open file"] (log (EvOpenRead (ws_path x)) (after_mkdir w))) /\
  call_cfunction CF_readfile [] (world_of fs_workspace [])
  = Ret [Str "No filename provided"] (world_of fs_workspace []) /\
  (exists w', call_cfunction CF_readfile [Str "nope"] (world_of fs_workspace [])
              = Ret [Str "Failed to open file"] w').
Proof.
  split; [|split; [|split]].
  - intros args w Hargs.
    assert (Hnone : args !! 0%nat ≫= tostring_value = None)
      by (destruct (args !! 0%nat) as [[]|]; simpl in *; congruence).
    split.
    + unfold readfile_lambda, bind. rewrite readfile_run.
      change (stack (set_stack args w)) with args. rewrite Hnone.
      now destruct w.
    + rewrite call_readfile. now rewrite Hnone.
  - intros x w Hopen. rewrite call_readfile.
    change ([Str x] !! 0%nat ≫= tostring_value) with (Some x). cbv beta iota zeta.
    change (disk (log (EvOpenRead (ws_path x)) (after_mkdir w)))
      with (disk (after_mkdir w)).
    now rewrite Hopen.
  - now rewrite call_readfile.
  - rewrite call_readfile. eexists. vm_compute. reflexivity.
Qed.

(** C3.  When the bootstrap does not compile, [luaopen_mylibrary] returns
    the count 1 with the stack exactly as on entry: the depth on return is
    the depth on entry, not the depth on entry plus the count.  The same
    happens when the bootstrap returns one value that is no function. *)
Theorem luaopen_failure_stack_depth
    (msg : string) (call : nat -> list value -> world -> (value + list value) * world)
    (v : value) (w : world) :
  (exists w', luaopen_mylibrary (Interpreter (fun _ _ => inl msg) call) w = Ret 1 w' /\
              stack w' = stack w /\
              Z.of_nat (length (stack w')) <> Z.of_nat (length (stack w)) + 1) /\
  (is_function v = false ->
   exists w', luaopen_mylibrary (vm_returning [v]) w = Ret 1 w' /\
              stack w' = stack w /\
              Z.of_nat (length (stack w')) <> Z.of_nat (length (stack w)) + 1).
Proof.
  split.
  - eexists. split; [apply luaopen_load_error; reflexivity|].
    split; [reflexivity|]. cbn [stack set_cerr registered set_globals after_mkdir
                                  set_disk log]. lia.
  - intros Hv. eexists. split.
    + rewrite (luaopen_returns (vm_returning [v]) 0%nat [v] w
                 (set_stack (stack w ++ [LFunction 0]) (registered (after_mkdir w))))
        by reflexivity.
      rewrite last_snoc, removelast_last, Hv. reflexivity.
    + split; [reflexivity|]. cbn [stack set_cerr set_stack]. lia.
Qed.

(** C1.  After a load whose bootstrap returns a function, the registry
    holds the function under the key [luaL_ref] returned, but the key is
    recorded nowhere: [hookPlayerAddedEvent] returns no key and changes
    the world in the registry only, and the load returns the constant 1.
    Loaded into two interpreters that differ in the registry, the library
    stores the function under different keys (1 and 2) and leaves the
    same return value and, the registry apart, the same world: nothing
    outside the registry tells which key holds the handler.  The library
    has no function that calls the handler. *)
Theorem luaopen_handler_key_dropped :
  (forall (st : list value) (v : value) (g : gmap string value) (r : gmap Z value)
          (d : filesys) (c : string) (t : list event),
     exists w', hookPlayerAddedEvent (World (st ++ [v]) g r d c t) = Ret tt w' /\
                set_registry r w' = World (st ++ [v]) g r d c t) /\
  (exists wa wb,
     luaopen_mylibrary (vm_returning [onPlayerAdded]) w_load = Ret 1 wa /\
     luaopen_mylibrary (vm_returning [onPlayerAdded]) w_load_shared = Ret 1 wb /\
     registry wa !! 1 = Some onPlayerAdded /\
     registry wb !! 2 = Some onPlayerAdded /\
     set_registry ∅ wa = set_registry ∅ wb).
Proof.
  split.
  - intros st v g r d c t. eexists. split.
    + apply (hook_run st v). reflexivity.
    + destruct v; reflexivity.
  - do 2 eexists. split; [vm_compute; reflexivity|].
    split; [vm_compute; reflexivity|].
    repeat split; vm_compute; reflexivity.
Qed.

(** C5.  A bootstrap that fails at run time with an error value that is
    neither a string nor a number makes the load undefined:
    [executeMainLuau] builds a [std::string] from the null pointer that
    [lua_tostring] returns for such a value.  The load does not complete,
    whatever the state it starts from. *)
Theorem luaopen_error_value_undefined (e : value) (w : world) :
  (tostring_value e = None ->
   executeMainLuau (vm_raising e) mainLuauScript w = Undefined /\
   luaopen_mylibrary (vm_raising e) w = Undefined) /\
  luaopen_mylibrary (vm_raising (Table 0)) w = Undefined.
Proof.
  assert (Hgen : forall e', tostring_value e' = None ->
            executeMainLuau (vm_raising e') mainLuauScript w = Undefined /\
            luaopen_mylibrary (vm_raising e') w = Undefined).
  { intros e' He. split.
    - rewrite (execute_run_error (vm_raising e') _ 0%nat e' w
                 (set_stack (stack w ++ [LFunction 0]) w)) by reflexivity.
      now rewrite He.
    - rewrite (luaopen_run_error (vm_raising e') 0%nat e' w
                 (set_stack (stack w ++ [LFunction 0]) (registered (after_mkdir w))))
        by reflexivity.
      now rewrite He. }
  split; [apply Hgen|]. now apply Hgen.
Qed.

(** ** The workspace directory *)

Lemma mkdir_p_ensure_spec (fs : filesys) :
  (mkdir_p "workspace" fs).1
  = match ensure_spec fs with
    | inr fs' => fs'
    | inl _ => fs
    end.
Proof.
  unfold mkdir_p, ensure_spec.
  destruct (is_dir fs (cwd fs)); simpl; [|reflexivity].
  destruct (nodes fs !! (cwd fs ++ ["workspace"])) as [[| |]|]; try reflexivity.
  now destruct (is_writable_dir fs (cwd fs)).
Qed.




Lemma after_mkdir_disk (w : world) :
  disk (after_mkdir w) = (mkdir_p "workspace" (disk w)).1.
Proof. reflexivity. Qed.



Lemma after_mkdir_twice_disk (w : world) :
  disk (after_mkdir (after_mkdir w)) = disk (after_mkdir w).
Proof. rewrite !after_mkdir_disk. now rewrite mkdir_p_idem. Qed.

(** [writefile] with two strings, by the outcome of opening the file. *)
Lemma call_writefile_strings (k s : string) (w : world) :
  call_cfunction CF_writefile [Str k; Str s] w =
  let w1 := log (EvOpenWrite (ws_path k)) (after_mkdir (after_mkdir w)) in
  match open_out (disk (after_mkdir w)) (ws_path k) with
  | Some (q, fs) => Ret [Boolean true] (set_disk (append_file q (c_str s) fs).1 w1)
  | None => Ret [Boolean false] w1
  end.
Proof.
  rewrite call_writefile.
  change ([Str k; Str s] !! 0%nat ≫= tostring_value) with (Some k).
  change ([Str k; Str s] !! 1%nat ≫= tostring_value) with (Some s).
  cbv beta iota zeta.
  change (disk (log (EvOpenWrite (ws_path k)) (after_mkdir (after_mkdir w))))
    with (disk (after_mkdir (after_mkdir w))).
  now rewrite after_mkdir_twice_disk.
Qed.

(** [readfile] with a string, by the outcome of opening the file. *)
Lemma call_readfile_string (k : string) (w : world) :
  call_cfunction CF_readfile [Str k] w =
  let w1 := log (EvOpenRead (ws_path k)) (after_mkdir w) in
  match open_in (disk (after_mkdir w)) (ws_path k) with
  | Some d => Ret [Str (c_str d)] w1
  | None => Ret [Str "Failed to open file"] w1
  end.
Proof. now rewrite call_readfile. Qed.



(** ** Writing and reading back *)

(** After a write through [workspace/...], [mkdir -p workspace] has
    nothing to do. *)
Lemma mkdir_after_write (fs fs' : filesys) (x : string) (q : list string) (bytes : string) :
  open_out fs (ws_path x) = Some (q, fs') ->
  mkdir_p "workspace" (append_file q bytes fs').1 = ((append_file q bytes fs').1, 0).
Proof.
  intros H. apply open_out_Some in H as (Hres & _ & Hcwd & Hdir & _).
  destruct (append_file_frame q bytes fs') as (Hcwd' & Hdir' & _).
  apply resolve_ws_path in Hres as [Hc Hws].
  apply mkdir_p_present; rewrite Hdir', Hdir, Hcwd', Hcwd; assumption.
Qed.

(** A [writefile] whose stream is open on a regular file with room on the
    disk returns true and leaves the content, up to its first NUL byte,
    in the file. *)
Lemma writefile_lands (k s : string) (w : world) (q : list string) (fs' : filesys)
    (d : string) (r wr : bool) :
  open_out (disk (after_mkdir w)) (ws_path k) = Some (q, fs') ->
  nodes fs' !! q = Some (RegFile d r wr) ->
  (len (c_str s) <=? free fs')%N = true ->
  exists w1,
    call_cfunction CF_writefile [Str k; Str s] w = Ret [Boolean true] w1 /\
    disk w1 = (append_file q (c_str s) fs').1 /\
    nodes (disk w1) !! q = Some (RegFile (c_str s) r wr).
Proof.
  intros Hopen Hq Hfit. rewrite call_writefile_strings. cbv zeta. rewrite Hopen.
  eexists. split; [reflexivity|]. cbn [disk set_disk]. split; [reflexivity|].
  assert (d = EmptyString) as ->.
  { apply open_out_Some in Hopen as (_ & _ & _ & _ & _ & Hnode).
    destruct Hnode as [[Hn _]|(r' & wr' & Hn)]; congruence. }
  now destruct (append_file_fits q (c_str s) EmptyString r wr fs' Hq Hfit) as [-> _].
Qed.

(** What [writefile] leaves, when the write lands on a file that can be
    read, is what [readfile] returns: the content up to its first NUL
    byte, whatever the file held before. *)
Lemma readfile_after_writefile (k s : string) (w : world) :
  write_lands (disk (after_mkdir w)) (ws_path k) (c_str s) = true ->
  exists w1 w2,
    call_cfunction CF_writefile [Str k; Str s] w = Ret [Boolean true] w1 /\
    call_cfunction CF_readfile [Str k] w1 = Ret [Str (c_str s)] w2 /\
    open_in (disk w1) (ws_path k) = Some (c_str s).
Proof.
  unfold write_lands.
  destruct (open_out (disk (after_mkdir w)) (ws_path k)) as [[q fs']|] eqn:Hopen;
    [|discriminate].
  destruct (nodes fs' !! q) as [[d r wr| |]|] eqn:Hq; try discriminate.
  intros H. apply andb_true_iff in H as [-> Hfit].
  destruct (writefile_lands k s w q fs' d true wr Hopen Hq Hfit) as (w1 & Hwrite & Hdisk & _).
  pose proof (open_in_after_write _ _ _ _ (c_str s) d wr Hopen Hq Hfit) as Hread.
  exists w1. eexists. split; [exact Hwrite|]. split.
  - rewrite call_readfile_string. cbv zeta.
    rewrite after_mkdir_disk, Hdisk, (mkdir_after_write _ _ _ _ _ Hopen). cbn [fst].
    now rewrite Hread, c_str_idem.
  - now rewrite Hdisk.
Qed.

(** C4, as the code has it.  For a byte string [s] without a NUL byte and
    a name [k] without a path separator: when [workspace/k] opens for
    writing on a regular file that can be read, and the disk has room for
    [s], [writefile(k, s)] returns true and the [readfile(k)] that
    follows returns exactly [s]. *)
Theorem writefile_readfile_roundtrip (k s : string) (w : world) :
  has_NUL s = false ->
  has_slash k = false ->
  write_lands (disk (after_mkdir w)) (ws_path k) s = true ->
  exists w1 w2,
    call_cfunction CF_writefile [Str k; Str s] w = Ret [Boolean true] w1 /\
    call_cfunction CF_readfile [Str k] w1 = Ret [Str s] w2 /\
    write_then_read k s w = Ret [Str s] w2.
Proof.
  intros Hnul _ Hlands. rewrite <- (c_str_no_NUL s Hnul) in Hlands.
  destruct (readfile_after_writefile k s w Hlands) as (w1 & w2 & Hwrite & Hread & _).
  rewrite (c_str_no_NUL s Hnul) in Hread.
  exists w1, w2. split; [assumption|]. split; [assumption|].
  unfold write_then_read, bind. now rewrite Hwrite.
Qed.

Lemma writefile_readfile_roundtrip_witness :
  exists w1 w2,
    call_cfunction CF_writefile [Str "k"; Str "hi"] (world_of fs_empty [])
    = Ret [Boolean true] w1 /\
    call_cfunction CF_readfile [Str "k"] w1 = Ret [Str "hi"] w2 /\
    write_then_read "k" "hi" (world_of fs_empty []) = Ret [Str "hi"] w2.
Proof.
  apply (writefile_readfile_roundtrip "k" "hi" (world_of fs_empty []));
    vm_compute; reflexivity.
Defined.

(** C4, as the specification states it, fails.  The content [a NUL b],
    written under the name [k], is read back as [a].  Nor does every
    disk give the content back: with a regular file named [workspace] in
    the way nothing is written and [readfile] fails; on a disk without a
    free byte, and when [workspace/k] is a null device, [writefile]
    returns true and [readfile] returns the empty string. *)
Lemma roundtrip_NUL_counterexample :
  has_slash "k" = false /\
  (exists w2, write_then_read "k" a_NUL_b (world_of fs_empty []) = Ret [Str "a"] w2) /\
  Str "a" <> Str a_NUL_b /\
  (exists w2, write_then_read "k" "hi" (world_of fs_blocked [])
              = Ret [Str "Failed to open file"] w2) /\
  (exists w1 w2,
     call_cfunction CF_writefile [Str "k"; Str "hi"] (world_of fs_full [])
     = Ret [Boolean true] w1 /\
     call_cfunction CF_readfile [Str "k"] w1 = Ret [Str ""] w2) /\
  (exists w1 w2,
     call_cfunction CF_writefile [Str "k"; Str "hi"] (world_of fs_device [])
     = Ret [Boolean true] w1 /\
     call_cfunction CF_readfile [Str "k"] w1 = Ret [Str ""] w2).
Proof.
  split; [reflexivity|].
  split; [eexists; vm_compute; reflexivity|].
  split; [discriminate|].
  split; [eexists; vm_compute; reflexivity|].
  split; do 2 eexists; split; vm_compute; reflexivity.
Qed.

(** C7, as the code has it.  For string arguments: when the file
    [workspace/<name>] cannot be opened for writing on the disk
    [ensureWorkspaceDirectory] leaves, [writefile] returns false and that
    disk is unchanged; a call that returns true has opened the file; and
    when the file opens as a regular file and the disk has room for the
    content up to its first NUL byte, the call returns true and the file
    holds exactly those bytes, which are the whole content when it has no
    NUL byte.  Nothing is said of a write that fails on an open file. *)
Theorem writefile_result (name content : string) (w : world) :
  (open_out (disk (after_mkdir w)) (ws_path name) = None ->
   exists w',
     call_cfunction CF_writefile [Str name; Str content] w = Ret [Boolean false] w' /\
     disk w' = disk (after_mkdir w)) /\
  (forall w',
     call_cfunction CF_writefile [Str name; Str content] w = Ret [Boolean true] w' ->
     is_Some (open_out (disk (after_mkdir w)) (ws_path name))) /\
  (forall q fs' d r wr,
     open_out (disk (after_mkdir w)) (ws_path name) = Some (q, fs') ->
     nodes fs' !! q = Some (RegFile d r wr) ->
     (len (c_str content) <= free fs')%N ->
     exists w',
       call_cfunction CF_writefile [Str name; Str content] w = Ret [Boolean true] w' /\
       nodes (disk w') !! q = Some (RegFile (c_str content) r wr) /\
       (has_NUL content = false -> nodes (disk w') !! q = Some (RegFile content r wr))).
Proof.
  split; [|split].
  - intros Hopen. rewrite call_writefile_strings. cbv zeta. rewrite Hopen.
    eexists. split; [reflexivity|]. cbn [disk log]. apply after_mkdir_twice_disk.
  - intros w'. rewrite call_writefile_strings. cbv zeta.
    destruct (open_out (disk (after_mkdir w)) (ws_path name)) as [[q fs']|];
      [eauto|discriminate].
  - intros q fs' d r wr Hopen Hq Hfit. apply N.leb_le in Hfit.
    destruct (writefile_lands name content w q fs' d r wr Hopen Hq Hfit)
      as (w' & Hwrite & _ & Hnode).
    exists w'. split; [assumption|]. split; [assumption|].
    intros Hnul. now rewrite Hnode, c_str_no_NUL.
Qed.

(** C7, as the specification states it, fails: for the content [a NUL b]
    [writefile] returns true, and the file holds [a], not the whole
    content. *)
Lemma writefile_true_truncated_counterexample :
  exists w',
    call_cfunction CF_writefile [Str "k"; Str a_NUL_b] (world_of fs_empty [])
    = Ret [Boolean true] w' /\
    open_in (disk w') "workspace/k" = Some "a" /\
    Some "a" <> Some a_NUL_b.
Proof.
  eexists. split; [vm_compute; reflexivity|].
  split; [vm_compute; reflexivity|discriminate].
Qed.

(** ** Arguments and paths *)

Lemma convertible_tostring (o : option value) :
  o ≫= tostring_value = None <-> convertible o = false.
Proof. destruct o as [[]|]; simpl; split; congruence. Qed.

Lemma not_convertible_tostring (o : option value) :
  convertible o = true -> exists s, o ≫= tostring_value = Some s.
Proof. destruct o as [[]|]; simpl; try discriminate; eauto. Qed.

(** C6, as the code has it.  When the first argument is missing or is
    neither a string nor a number, the native [readfile] pushes nil and
    the message and touches neither disk nor log.  When one of the two
    arguments of [writefile] is missing or is neither a string nor a
    number, the call returns false and leaves the world as it was: no
    command is run and no file is opened. *)
Theorem unusable_arguments_rejected (args : list value) (w : world) :
  (convertible (args !! 0%nat) = false ->
   readfile (set_stack args w)
   = Ret EmptyString (set_stack (args ++ [Nil; Str "No filename provided"]) w)) /\
  (convertible (args !! 0%nat) = false \/ convertible (args !! 1%nat) = false ->
   call_cfunction CF_writefile args w = Ret [Boolean false] w).
Proof.
  split.
  - intros H. apply convertible_tostring in H.
    rewrite readfile_run. change (stack (set_stack args w)) with args.
    rewrite H. now destruct w.
  - intros H. rewrite call_writefile.
    destruct H as [H|H]; apply convertible_tostring in H; rewrite H;
      [reflexivity|].
    now destruct (args !! 0%nat ≫= tostring_value).
Qed.

Lemma unusable_arguments_rejected_witness :
  readfile (set_stack [Table 0] (world_of fs_workspace []))
  = Ret EmptyString
      (set_stack ([Table 0] ++ [Nil; Str "No filename provided"])
         (world_of fs_workspace [])) /\
  call_cfunction CF_writefile [Str "a"] (world_of fs_workspace [])
  = Ret [Boolean false] (world_of fs_workspace []).
Proof.
  destruct (unusable_arguments_rejected [Table 0] (world_of fs_workspace []))
    as [Hread _].
  destruct (unusable_arguments_rejected [Str "a"] (world_of fs_workspace []))
    as [_ Hwrite].
  split; [apply Hread; reflexivity|apply Hwrite; right; reflexivity].
Defined.

(** C6, as the specification states it, fails: numbers are not strings,
    yet [writefile(1, 2)] returns true and creates [workspace/1] holding
    the byte 2, and [readfile(42)] returns what [workspace/42] holds. *)
Lemma number_arguments_counterexample :
  is_string (Some (Number "1")) = false /\ is_string (Some (Number "42")) = false /\
  (exists w',
     call_cfunction CF_writefile [Number "1"; Number "2"] (world_of fs_empty [])
     = Ret [Boolean true] w' /\
     open_in fs_empty "workspace/1" = None /\
     open_in (disk w') "workspace/1" = Some "2") /\
  (exists w',
     call_cfunction CF_readfile [Number "42"] (world_of fs_42 []) = Ret [Str "answer"] w').
Proof.
  split; [reflexivity|]. split; [reflexivity|]. split.
  - eexists. split; [vm_compute; reflexivity|].
    split; vm_compute; reflexivity.
  - eexists. vm_compute. reflexivity.
Qed.

(** C9, as the code has it.  For a string name [x], [readfile] runs
    [mkdir -p workspace] and then opens, for reading, the path
    [workspace/] followed by the bytes of [x] before its first NUL byte;
    [writefile] runs the command twice and then opens that path for
    writing, or touches nothing when its content argument is unusable.
    When [x] has no NUL byte the path is [workspace/] followed by [x]. *)
Theorem file_path_opened (x : string) (rest : list value) (w : world) :
  (exists r w',
     call_cfunction CF_readfile (Str x :: rest) w = Ret r w' /\
     trace w' = trace w ++ [EvSystem "mkdir -p workspace";
                            EvOpenRead ("workspace/" +:+ c_str x)]) /\
  (exists r w',
     call_cfunction CF_writefile (Str x :: rest) w = Ret r w' /\
     trace w' = trace w ++
       (if convertible (rest !! 0%nat)
        then [EvSystem "mkdir -p workspace"; EvSystem "mkdir -p workspace";
              EvOpenWrite ("workspace/" +:+ c_str x)]
        else [])) /\
  (has_NUL x = false -> "workspace/" +:+ c_str x = "workspace/" +:+ x).
Proof.
  split; [|split].
  - rewrite call_readfile.
    change ((Str x :: rest) !! 0%nat ≫= tostring_value) with (Some x).
    cbv beta iota zeta. fold (ws_path x).
    destruct (open_in _ (ws_path x)); do 2 eexists; (split; [reflexivity|]);
      cbn [trace log after_mkdir set_disk]; now rewrite <- app_assoc.
  - rewrite call_writefile.
    change ((Str x :: rest) !! 0%nat ≫= tostring_value) with (Some x).
    change ((Str x :: rest) !! 1%nat) with (rest !! 0%nat).
    fold (ws_path x).
    destruct (convertible (rest !! 0%nat)) eqn:Hc.
    + apply not_convertible_tostring in Hc as [c Hc]. rewrite Hc.
      cbv beta iota zeta.
      destruct (open_out _ (ws_path x)) as [[q fs]|]; do 2 eexists;
        (split; [reflexivity|]);
        cbn [trace log after_mkdir set_disk]; now rewrite <- !app_assoc.
    + apply convertible_tostring in Hc. rewrite Hc.
      do 2 eexists. split; [reflexivity|]. now rewrite app_nil_r.
  - intros H. now rewrite c_str_no_NUL.
Qed.

(** C9, as the specification states it, fails: for the name [a NUL b]
    the file opened is [workspace/a], which is not [workspace/] followed
    by the name. *)
Lemma path_NUL_counterexample :
  (exists r w',
     call_cfunction CF_readfile [Str a_NUL_b] (world_of fs_workspace []) = Ret r w' /\
     trace w' = [EvSystem "mkdir -p workspace"; EvOpenRead "workspace/a"]) /\
  (exists r w',
     call_cfunction CF_writefile [Str a_NUL_b; Str "hi"] (world_of fs_workspace [])
     = Ret r w' /\
     trace w' = [EvSystem "mkdir -p workspace"; EvSystem "mkdir -p workspace";
                 EvOpenWrite "workspace/a"]) /\
  "workspace/a" <> "workspace/" +:+ a_NUL_b.
Proof.
  split; [|split].
  - do 2 eexists. split; vm_compute; reflexivity.
  - do 2 eexists. split; vm_compute; reflexivity.
  - vm_compute. discriminate.
Qed.

(** ** What holds of the load *)

Lemma registered_globals (w : world) :
  globals (registered w) !! "readfile" = Some (CFunction CF_readfile) /\
  globals (registered w) !! "writefile" = Some (CFunction CF_writefile).
Proof.
  unfold registered. cbn [globals set_globals]. split.
  - rewrite lookup_insert_ne by discriminate. apply lookup_insert_eq.
  - apply lookup_insert_eq.
Qed.

(** X1.  A bootstrap that fails in one of the reported ways does not fail
    the load: [luaopen_mylibrary] returns 1, writes the diagnostic line, takes
    no registry reference and leaves globals and registry as the script
    left them, with the stack as on entry.  In particular, [readfile] and
    [writefile] are bound to the library's functions if the script left
    those bindings alone, as is the case when it did not compile. *)
Theorem luaopen_survives_bootstrap_failure
    (vm : interpreter) (w w' : world) (line : string) :
  bootstrap_failure vm (registered (after_mkdir w)) w' line ->
  exists w'',
    luaopen_mylibrary vm w = Ret 1 w'' /\
    stack w'' = stack w /\ globals w'' = globals w' /\ registry w'' = registry w' /\
    cerr w'' = cerr w' +:+ line /\
    (globals w' !! "readfile" = Some (CFunction CF_readfile) ->
     forall args, call_global "readfile" args w'' = call_cfunction CF_readfile args w'') /\
    (globals w' !! "writefile" = Some (CFunction CF_writefile) ->
     forall args, call_global "writefile" args w'' = call_cfunction CF_writefile args w'').
Proof.
  intros Hfail.
  assert (Hrun : luaopen_mylibrary vm w
                 = Ret 1 (set_cerr (cerr w' +:+ line) (set_stack (stack w) w'))).
  { destruct Hfail as [msg Hload|id e msg w' Hload Hcall Hmsg|id v w' Hload Hcall Hv].
    - rewrite (luaopen_load_error vm msg) by assumption. reflexivity.
    - rewrite (luaopen_run_error vm id e w w') by assumption. now rewrite Hmsg.
    - rewrite (luaopen_returns vm id [v] w w') by assumption.
      now rewrite last_snoc, removelast_last, Hv. }
  eexists. split; [exact Hrun|].
  repeat split;
    first [ reflexivity
          | intros H args; unfold call_global; cbn [globals set_cerr set_stack];
            now rewrite H ].
Qed.

Lemma luaopen_survives_bootstrap_failure_witness :
  exists w'',
    luaopen_mylibrary vm_syntax_error w_load = Ret 1 w'' /\
    stack w'' = stack w_load /\
    globals w'' = globals (registered (after_mkdir w_load)) /\
    registry w'' = registry (registered (after_mkdir w_load)) /\
    cerr w'' = cerr (registered (after_mkdir w_load))
               +:+ failure_line "string:1: syntax error" /\
    (globals (registered (after_mkdir w_load)) !! "readfile"
     = Some (CFunction CF_readfile) ->
     forall args, call_global "readfile" args w'' = call_cfunction CF_readfile args w'') /\
    (globals (registered (after_mkdir w_load)) !! "writefile"
     = Some (CFunction CF_writefile) ->
     forall args, call_global "writefile" args w'' = call_cfunction CF_writefile args w'').
Proof.
  apply (luaopen_survives_bootstrap_failure vm_syntax_error w_load).
  apply BF_load. reflexivity.
Defined.

(** X2.  A bootstrap that returns exactly one function: the load returns 1
    with that function on top of the entry stack, and the registry holds
    the function under a key that was not in use; the other references
    and the globals are as the script left them. *)
Theorem luaopen_adopts_handler
    (vm : interpreter) (id : nat) (f : value) (w w' : world) :
  vm_load vm "string" (chunk_bytes mainLuauScript) = inr id ->
  vm_call vm id [] (set_stack (stack w ++ [LFunction id]) (registered (after_mkdir w)))
  = (inr [f], w') ->
  is_function f = true ->
  exists k w'',
    luaopen_mylibrary vm w = Ret 1 w'' /\
    stack w'' = stack w ++ [f] /\
    0 < k /\ registry w' !! k = None /\
    registry w'' = <[k := f]> (registry w') /\
    globals w'' = globals w'.
Proof.
  intros Hload Hcall Hf.
  exists (fresh_ref (registry w')). eexists.
  split.
  - rewrite (luaopen_returns vm id [f] w w') by assumption.
    now rewrite last_snoc, Hf.
  - destruct f; try discriminate; cbn [hooked stack set_registry set_stack registry globals];
      repeat split; auto using fresh_ref_positive, fresh_ref_unused.
Qed.

Lemma luaopen_adopts_handler_witness :
  exists k w'',
    luaopen_mylibrary (vm_returning [onPlayerAdded]) w_load_shared = Ret 1 w'' /\
    stack w'' = stack w_load_shared ++ [onPlayerAdded] /\
    0 < k /\
    registry (set_stack (stack w_load_shared ++ [LFunction 0])
                (registered (after_mkdir w_load_shared))) !! k = None /\
    registry w'' = <[k := onPlayerAdded]>
                     (registry (set_stack (stack w_load_shared ++ [LFunction 0])
                                  (registered (after_mkdir w_load_shared)))) /\
    globals w'' = globals (set_stack (stack w_load_shared ++ [LFunction 0])
                             (registered (after_mkdir w_load_shared))).
Proof.
  apply (luaopen_adopts_handler (vm_returning [onPlayerAdded]) 0%nat onPlayerAdded
           w_load_shared); reflexivity.
Defined.

(** The file scenarios of the specification, run after a load whose
    bootstrap returned a function: [writefile] creates [hello.txt] with
    the two bytes written, [readfile] returns the bytes of [greet.txt] as
    its one value, and [readfile] of a missing file returns one value, the
    message. *)
Example file_scenarios :
  exists w0,
    luaopen_mylibrary (vm_returning [onPlayerAdded]) (world_of fs_workspace []) = Ret 1 w0 /\
    (exists w1,
       call_global "writefile" [Str "hello.txt"; Str "hi"] w0 = Ret [Boolean true] w1 /\
       open_in (disk w1) "workspace/hello.txt" = Some "hi") /\
    (exists w1, call_global "readfile" [Str "greet.txt"] w0 = Ret [Str "hello world"] w1) /\
    (exists w1, call_global "readfile" [Str "nope"] w0 = Ret [Str "Failed to open file"] w1).
Proof.
  eexists. split; [vm_compute; reflexivity|].
  split; [|split].
  - eexists. split; vm_compute; reflexivity.
  - eexists. vm_compute. reflexivity.
  - eexists. vm_compute. reflexivity.
Qed.

(** X3.  A successful [readfile] gives the script one value: the bytes of the
    file up to their first NUL byte.  The disk is the one
    [ensureWorkspaceDirectory] left. *)
Theorem readfile_success_one_value (x d : string) (w : world) :
  open_in (disk (after_mkdir w)) (ws_path x) = Some d ->
  exists w',
    call_cfunction CF_readfile [Str x] w = Ret [Str (c_str d)] w' /\
    disk w' = disk (after_mkdir w).
Proof.
  intros Hopen. rewrite call_readfile.
  change ([Str x] !! 0%nat ≫= tostring_value) with (Some x). cbv beta iota zeta.
  change (disk (log (EvOpenRead (ws_path x)) (after_mkdir w)))
    with (disk (after_mkdir w)).
  rewrite Hopen. eauto.
Qed.

Lemma readfile_success_one_value_witness :
  exists w',
    call_cfunction CF_readfile [Str "greet.txt"] (world_of fs_workspace [])
    = Ret [Str (c_str "hello world")] w' /\
    disk w' = disk (after_mkdir (world_of fs_workspace [])).
Proof.
  apply (readfile_success_one_value "greet.txt" "hello world" (world_of fs_workspace [])).
  vm_compute. reflexivity.
Defined.

(** An instance: a name that climbs with [..] reaches the directory above
    the workspace. *)
Theorem path_escapes_workspace :
  exists w',
    call_cfunction CF_writefile [Str "../escape.txt"; Str "x"] (world_of fs_workspace [])
    = Ret [Boolean true] w' /\
    resolve (disk w') (ws_path "../escape.txt") = Some ["home"; "escape.txt"] /\
    nodes (disk w') !! ["home"; "escape.txt"] = Some (RegFile "x" true true).
Proof.
  eexists. split; [vm_compute; reflexivity|].
  split; vm_compute; reflexivity.
Qed.

(** * The functions that are not registered *)

(** ** Searching a C string *)

Lemma append_cons (c : ascii) (a b : string) :
  String c a +:+ b = String c (a +:+ b).
Proof. reflexivity. Qed.

Lemma append_nil_l (b : string) : EmptyString +:+ b = b.
Proof. reflexivity. Qed.

Lemma starts_with_prefix (needle hay : string) :
  starts_with needle hay = true <-> exists post, hay = needle +:+ post.
Proof.
  revert hay. induction needle as [|a needle IH]; intros hay; simpl.
  - split; [intros _; exists hay; reflexivity|reflexivity].
  - destruct hay as [|b hay].
    + split; [discriminate|]. intros [post H]. discriminate.
    + rewrite andb_true_iff, IH. split.
      * intros [Hab [post ->]]. apply Ascii.eqb_eq in Hab as ->.
        exists post. reflexivity.
      * intros [post H]. rewrite append_cons in H. injection H as -> ->.
        split; [apply Ascii.eqb_refl|eauto].
Qed.

(** A match that is found is an occurrence, at the offset returned, and
    no occurrence starts before it. *)
Lemma find_first_Some (hay needle : string) (n : nat) :
  find_first hay needle = Some n ->
  exists pre post, hay = pre +:+ needle +:+ post /\ String.length pre = n.
Proof.
  revert n. induction hay as [|c hay IH]; intros n; simpl.
  - destruct (starts_with needle EmptyString) eqn:E; [|discriminate].
    intros [= <-]. apply starts_with_prefix in E as [post E].
    exists EmptyString, post. split; [exact E|reflexivity].
  - destruct (starts_with needle (String c hay)) eqn:E.
    + intros [= <-]. apply starts_with_prefix in E as [post E].
      exists EmptyString, post. split; [exact E|reflexivity].
    + destruct (find_first hay needle) as [m|]; [|discriminate].
      intros [= <-]. destruct (IH m eq_refl) as (pre & post & -> & Hlen).
      exists (String c pre), post. split; [reflexivity|simpl; now rewrite Hlen].
Qed.

(** When nothing is found there is no occurrence. *)
Lemma find_first_None (hay needle : string) :
  find_first hay needle = None -> ~ occurs needle hay.
Proof.
  induction hay as [|c hay IH]; simpl.
  - destruct (starts_with needle EmptyString) eqn:E; [discriminate|].
    intros _ (pre & post & H).
    destruct pre as [|c pre]; [|discriminate].
    rewrite append_nil_l in H.
    assert (starts_with needle EmptyString = true)
      by (apply starts_with_prefix; eauto).
    congruence.
  - destruct (starts_with needle (String c hay)) eqn:E; [discriminate|].
    destruct (find_first hay needle) as [m|]; [discriminate|].
    intros _ (pre & post & H).
    destruct pre as [|c' pre].
    + rewrite append_nil_l in H.
      assert (starts_with needle (String c hay) = true)
        by (apply starts_with_prefix; eauto).
      congruence.
    + rewrite append_cons in H. injection H as -> ->.
      apply IH; [reflexivity|]. exists pre, post. reflexivity.
Qed.

Lemma strstr_occurs (hay needle : string) :
  is_Some (strstr hay needle) <-> occurs (c_str needle) (c_str hay).
Proof.
  unfold strstr. split.
  - intros [n H]. apply find_first_Some in H as (pre & post & H & _).
    exists pre, post. exact H.
  - intros Hocc. destruct (find_first (c_str hay) (c_str needle)) eqn:E; [eauto|].
    now apply find_first_None in E.
Qed.

(** ** Calling a native function *)

Lemma call_cfunction_native (f : cfun) (args : list value) (w : world) :
  call_cfunction f args w = call_native (cfun_body f) args w.
Proof. reflexivity. Qed.

(** A body that converts its first argument in place, pushes one value
    and returns the count 1 gives that value, and the world it found. *)
Lemma call_native_pure (body : M Z) (args : list value) (v : value) (w : world) :
  body (set_stack args w)
  = Ret 1 (set_stack (stack (coerce_slot 0 (set_stack args w)) ++ [v])
             (coerce_slot 0 (set_stack args w))) ->
  call_native body args w = Ret [v] w.
Proof.
  intros Hbody. unfold call_native. rewrite Hbody.
  destruct (coerce_slot_cases 0 (set_stack args w)) as [st' ->].
  cbn [stack set_stack]. rewrite one_result, drop_top.
  now destruct w.
Qed.

(** ** [generateScript] *)

Lemma generateScript_run (w : world) :
  generateScript w
  = Ret 1 (set_stack (stack (coerce_slot 0 w) ++ [generated (stack w)])
             (coerce_slot 0 w)).
Proof.
  unfold generateScript, bind, generated.
  change 1 with (Z.of_nat 1) at 1. rewrite tostring_pos_value.
  destruct (stack w !! 0%nat ≫= tostring_value) as [s|]; [|reflexivity].
  cbn beta iota. unfold std_string, ret, lua_pushstring, push, modify.
  now rewrite c_str_idem.
Qed.

Lemma call_generateScript (args : list value) (w : world) :
  call_native generateScript args w = Ret [generated args] w.
Proof. apply call_native_pure. apply generateScript_run. Qed.

(** X5.  [generateScript] gives the script exactly one value and changes
    nothing: nil when the first argument is missing or is neither a string
    nor a number, otherwise the argument's string up to its first NUL
    byte (so a string without a NUL byte comes back unchanged, and a
    number comes back as the string [lua_tostring] converts it to).
    Applied to its own result it returns that result again. *)
Theorem generateScript_result (args : list value) (w : world) :
  exists r,
    call_native generateScript args w = Ret [r] w /\
    (convertible (args !! 0%nat) = false <-> r = Nil) /\
    (forall s, args !! 0%nat = Some (Str s) ->
               r = Str (c_str s) /\ (has_NUL s = false -> r = Str s)) /\
    (forall text, args !! 0%nat = Some (Number text) -> r = Str (c_str text)) /\
    call_native generateScript [r] w = Ret [r] w.
Proof.
  exists (generated args). split; [apply call_generateScript|].
  unfold generated. split; [|split; [|split]].
  - rewrite <- convertible_tostring.
    destruct (args !! 0%nat ≫= tostring_value); split; congruence.
  - intros s ->. split; [reflexivity|]. intros H. cbn. now rewrite c_str_no_NUL.
  - intros n ->. reflexivity.
  - rewrite call_generateScript. do 2 f_equal.
    destruct (args !! 0%nat ≫= tostring_value) as [s|]; [|reflexivity].
    unfold generated. cbn. now rewrite c_str_idem.
Qed.

(** ** [scanVulnerabilities] *)

Lemma scanVulnerabilities_run (w : world) :
  scanVulnerabilities w
  = Ret 1 (set_stack (stack (coerce_slot 0 w) ++
                        [match stack w !! 0%nat ≫= tostring_value with
                         | Some code => Str (scan_verdict code)
                         | None => Nil
                         end])
             (coerce_slot 0 w)).
Proof.
  unfold scanVulnerabilities, bind, scan_verdict.
  change 1 with (Z.of_nat 1) at 1. rewrite tostring_pos_value.
  destruct (stack w !! 0%nat ≫= tostring_value) as [code|]; [|reflexivity].
  cbn beta iota zeta. unfold ret, lua_pushstring, push, modify.
  destruct (strstr code "while true do"); reflexivity.
Qed.

Lemma call_scanVulnerabilities (args : list value) (w : world) :
  call_native scanVulnerabilities args w
  = Ret [match args !! 0%nat ≫= tostring_value with
         | Some code => Str (scan_verdict code)
         | None => Nil
         end] w.
Proof.
  apply call_native_pure. now rewrite scanVulnerabilities_run.
Qed.

(** X6.  [scanVulnerabilities] gives the script exactly one value and
    changes nothing: nil when the first argument is missing or is neither
    a string nor a number; otherwise the message that a vulnerability was
    found exactly when the text [while true do] occurs in the argument's
    bytes before its first NUL byte, and the message that none was found
    when it does not. *)
Theorem scanVulnerabilities_result (args : list value) (w : world) :
  exists r,
    call_native scanVulnerabilities args w = Ret [r] w /\
    (convertible (args !! 0%nat) = false <-> r = Nil) /\
    (forall code, args !! 0%nat ≫= tostring_value = Some code ->
       (occurs "while true do" (c_str code) ->
        r = Str "Vulnerability found: Infinite loop") /\
       (~ occurs "while true do" (c_str code) ->
        r = Str "No vulnerabilities found")).
Proof.
  eexists. split; [apply call_scanVulnerabilities|]. split.
  - rewrite <- convertible_tostring.
    destruct (args !! 0%nat ≫= tostring_value); split; congruence.
  - intros code ->. unfold scan_verdict.
    pose proof (strstr_occurs code "while true do") as Hocc.
    change (c_str "while true do") with "while true do" in Hocc.
    destruct (strstr code "while true do") as [n|]; split; intros H.
    + reflexivity.
    + exfalso. apply H, Hocc. eauto.
    + apply Hocc in H as [n H]. discriminate.
    + reflexivity.
Qed.

Lemma append_nil_r (a : string) : a +:+ EmptyString = a.
Proof.
  induction a as [|c a IH]; [reflexivity|]. now rewrite append_cons, IH.
Qed.

(** X7.  [scanVulnerabilities] does not look past a NUL byte: code that
    follows one is never reported.  For a text [a] without a NUL byte,
    the verdict on [a], a NUL byte and any [b] is the verdict on [a]. *)
Theorem scanVulnerabilities_stops_at_NUL (a b : string) (w : world) :
  has_NUL a = false ->
  call_native scanVulnerabilities [Str (a +:+ String NUL b)] w
  = call_native scanVulnerabilities [Str a] w.
Proof.
  intros Ha. rewrite !call_scanVulnerabilities. cbn.
  unfold scan_verdict, strstr.
  rewrite c_str_app by assumption. cbn [c_str].
  change (Ascii.eqb NUL NUL) with true. cbn beta iota.
  now rewrite append_nil_r, (c_str_no_NUL a Ha).
Qed.

Lemma scanVulnerabilities_stops_at_NUL_witness :
  call_native scanVulnerabilities
    [Str ("local x = 1" +:+ String NUL "while true do end")] (world_of fs_empty [])
  = call_native scanVulnerabilities [Str "local x = 1"] (world_of fs_empty []).
Proof.
  apply (scanVulnerabilities_stops_at_NUL "local x = 1" "while true do end").
  reflexivity.
Defined.

(** ** [playerAddedHandler] *)


(** ** [luaL_dostring] and [executeMainLuau], for every interpreter *)

Lemma chunk_bytes_c_str (s : string) : chunk_bytes s = c_str s.
Proof.
  unfold chunk_bytes, strlen.
  induction s as [|c s IH]; [reflexivity|]. simpl.
  destruct (Ascii.eqb c NUL); [reflexivity|]. simpl. now rewrite IH.
Qed.

Lemma dostring_cases (vm : interpreter) (str : string) (w : world) :
  luaL_dostring vm str w =
  match vm_load vm "string" (c_str str) with
  | inl msg => Ret 1 (set_stack (stack w ++ [Str msg]) w)
  | inr id =>
      match vm_call vm id [] (set_stack (stack w ++ [LFunction id]) w) with
      | (inr vs, w') => Ret 0 (set_stack (stack w ++ vs) w')
      | (inl e, w') => Ret LUA_ERRRUN (set_stack (stack w ++ [e]) w')
      end
  end.
Proof.
  unfold luaL_dostring, luau_load, bind. fold (chunk_bytes str).
  rewrite chunk_bytes_c_str.
  destruct (vm_load vm "string" (c_str str)) as [msg|id].
  - reflexivity.
  - unfold push, modify, ret. status_tests. apply pcall_chunk.
Qed.

(** X9.  The file's [luaL_dostring] follows the chunk.  It hands the
    interpreter the bytes of the text before its first NUL byte, under
    the chunk name [string].  When they do not compile it returns 1 with
    the error message pushed on the caller's stack and nothing else
    changed.  When they compile it has the interpreter run the function
    once, without arguments, in the caller's state with the function
    pushed; it returns 0 with all the results pushed in place of the
    function, or the status 2 of [lua_pcall] with the error value pushed
    in its place, in the world the run left.  So a text and the text cut
    at its first NUL byte are run alike. *)
Theorem luaL_dostring_contract (vm : interpreter) (str : string) (w : world) :
  (forall msg,
     vm_load vm "string" (c_str str) = inl msg ->
     luaL_dostring vm str w = Ret 1 (set_stack (stack w ++ [Str msg]) w)) /\
  (forall id vs w',
     vm_load vm "string" (c_str str) = inr id ->
     vm_call vm id [] (set_stack (stack w ++ [LFunction id]) w) = (inr vs, w') ->
     luaL_dostring vm str w = Ret 0 (set_stack (stack w ++ vs) w')) /\
  (forall id e w',
     vm_load vm "string" (c_str str) = inr id ->
     vm_call vm id [] (set_stack (stack w ++ [LFunction id]) w) = (inl e, w') ->
     luaL_dostring vm str w = Ret 2 (set_stack (stack w ++ [e]) w')) /\
  luaL_dostring vm str w = luaL_dostring vm (c_str str) w.
Proof.
  split; [|split; [|split]].
  - intros msg Hload. now rewrite dostring_cases, Hload.
  - intros id vs w' Hload Hcall. now rewrite dostring_cases, Hload, Hcall.
  - intros id e w' Hload Hcall. now rewrite dostring_cases, Hload, Hcall.
  - now rewrite !dostring_cases, c_str_idem.
Qed.

Lemma execute_cases (vm : interpreter) (script : string) (w : world) :
  executeMainLuau vm script w =
  match vm_load vm "string" (chunk_bytes script) with
  | inl msg => Ret false (set_cerr (cerr w +:+ failure_line msg) w)
  | inr id =>
      match vm_call vm id [] (set_stack (stack w ++ [LFunction id]) w) with
      | (inl e, w') =>
          match tostring_value e with
          | Some msg =>
              Ret false (set_cerr (cerr w' +:+ failure_line msg) (set_stack (stack w) w'))
          | None => Undefined
          end
      | (inr vs, w') =>
          match last (stack w ++ vs) with
          | None => Undefined
          | Some v =>
              if is_function v then Ret true (set_stack (stack w ++ vs) w')
              else Ret false (set_cerr (cerr w' +:+ not_a_function_line)
                                (set_stack (removelast (stack w ++ vs)) w'))
          end
      end
  end.
Proof.
  destruct (vm_load vm "string" (chunk_bytes script)) as [msg|id] eqn:Hload.
  - now apply execute_load_error.
  - destruct (vm_call vm id [] _) as [[e|vs] w'] eqn:Hcall.
    + now apply (execute_run_error vm script id e w w').
    + now apply (execute_returns vm script id vs w w').
Qed.

(** X10.  Whatever the interpreter does, when [executeMainLuau] returns
    true the value on top of the stack is a function, so the
    [hookPlayerAddedEvent] that [luaopen_mylibrary] runs next is defined,
    never stores nil, and stores that function under a key that was not
    in use, leaving the stack as it was. *)
Theorem executeMainLuau_true_then_hook
    (vm : interpreter) (script : string) (w w' : world) :
  executeMainLuau vm script w = Ret true w' ->
  exists st f k,
    stack w' = st ++ [f] /\ is_function f = true /\
    0 < k /\ registry w' !! k = None /\
    hookPlayerAddedEvent w' = Ret tt (set_registry (<[k := f]> (registry w')) w').
Proof.
  rewrite execute_cases.
  destruct (vm_load vm "string" (chunk_bytes script)) as [msg|id]; [discriminate|].
  destruct (vm_call vm id [] _) as [[e|vs] ws].
  - destruct (tostring_value e); discriminate.
  - destruct (stack w ++ vs) as [|f st _] using rev_ind; [discriminate|].
    rewrite last_snoc, removelast_last.
    destruct (is_function f) eqn:Hf; [|discriminate].
    intros [= <-]. exists st, f, (fresh_ref (registry ws)).
    split; [reflexivity|]. split; [assumption|].
    split; [apply fresh_ref_positive|]. split; [apply fresh_ref_unused|].
    rewrite (hook_run st f) by reflexivity.
    destruct f; try discriminate; reflexivity.
Qed.

Lemma executeMainLuau_true_then_hook_witness :
  exists st f k,
    stack (set_stack [Str "mylibrary"; onPlayerAdded] w_load) = st ++ [f] /\
    is_function f = true /\
    0 < k /\ registry (set_stack [Str "mylibrary"; onPlayerAdded] w_load) !! k = None /\
    hookPlayerAddedEvent (set_stack [Str "mylibrary"; onPlayerAdded] w_load)
    = Ret tt (set_registry
                (<[k := f]> (registry (set_stack [Str "mylibrary"; onPlayerAdded] w_load)))
                (set_stack [Str "mylibrary"; onPlayerAdded] w_load)).
Proof.
  apply (executeMainLuau_true_then_hook (vm_returning [onPlayerAdded]) mainLuauScript
           w_load).
  vm_compute. reflexivity.
Defined.

(** ** The load, for every interpreter *)

(** X11.  A bootstrap that returns no value is judged by the caller's
    stack.  When the value on top at entry is no function, the load
    reports that the script did not return a function and pops that
    value: it returns 1 with one value fewer on the stack than at entry.
    When it is a function, the load takes it for the handler and stores
    it in the registry. *)
Theorem luaopen_bootstrap_returns_nothing
    (vm : interpreter) (id : nat) (st : list value) (v : value) (w w' : world) :
  stack w = st ++ [v] ->
  vm_load vm "string" (chunk_bytes mainLuauScript) = inr id ->
  vm_call vm id [] (bootstrap_world id w) = (inr [], w') ->
  exists w'',
    luaopen_mylibrary vm w = Ret 1 w'' /\
    if is_function v
    then stack w'' = st ++ [v] /\
         registry w'' = <[fresh_ref (registry w') := v]> (registry w')
    else stack w'' = st /\ registry w'' = registry w' /\
         cerr w'' = cerr w' +:+ not_a_function_line.
Proof.
  intros Hst Hload Hcall.
  rewrite (luaopen_returns vm id [] w w') by assumption.
  rewrite app_nil_r, Hst, last_snoc, removelast_last.
  destruct (is_function v) eqn:Hv; eexists; (split; [reflexivity|]).
  - destruct v; try discriminate; split; reflexivity.
  - repeat split.
Qed.

Lemma luaopen_bootstrap_returns_nothing_witness :
  exists w'',
    luaopen_mylibrary (vm_returning []) w_load = Ret 1 w'' /\
    if is_function (Str "mylibrary")
    then stack w'' = [] ++ [Str "mylibrary"] /\
         registry w'' = <[fresh_ref (registry (bootstrap_world 0 w_load)) := Str "mylibrary"]>
                          (registry (bootstrap_world 0 w_load))
    else stack w'' = [] /\ registry w'' = registry (bootstrap_world 0 w_load) /\
         cerr w'' = cerr (bootstrap_world 0 w_load) +:+ not_a_function_line.
Proof.
  apply (luaopen_bootstrap_returns_nothing (vm_returning []) 0%nat [] (Str "mylibrary")
           w_load (bootstrap_world 0 w_load)); reflexivity.
Defined.

Lemma bootstrap_world_globals (id : nat) (w : world) :
  globals (bootstrap_world id w) !! "readfile" = Some (CFunction CF_readfile) /\
  globals (bootstrap_world id w) !! "writefile" = Some (CFunction CF_writefile).
Proof. apply (registered_globals (after_mkdir w)). Qed.

Lemma mainLuauScript_no_NUL : has_NUL mainLuauScript = false.
Proof. vm_compute. reflexivity. Qed.

(** X12.  What a load does, for every interpreter and every state.  The
    load hands the interpreter the whole bundled script.  When the script
    does not compile, the load reports the message on [std::cerr] and
    returns 1, with the directory made and the two functions registered.
    When it compiles, the interpreter runs the chunk once, in the state
    in which the stack holds the chunk above the caller's values,
    [readfile] and [writefile] are bound to the library's functions and
    every other global is as before, [mkdir -p workspace] has been run
    and nothing else has changed; and the load goes on from the world the
    run leaves: an error value is reported and dropped (undefined
    behaviour when [lua_tostring] cannot convert it), a function on top
    of the stack is stored in the registry, and any other value on top
    is popped and reported. *)
Theorem luaopen_runs_bootstrap_registered (vm : interpreter) (w : world) :
  luaopen_mylibrary vm w =
  match vm_load vm "string" mainLuauScript with
  | inl msg =>
      Ret 1 (set_cerr (cerr w +:+ failure_line msg) (registered (after_mkdir w)))
  | inr id =>
      match vm_call vm id [] (bootstrap_world id w) with
      | (inl e, w') =>
          match tostring_value e with
          | Some msg =>
              Ret 1 (set_cerr (cerr w' +:+ failure_line msg) (set_stack (stack w) w'))
          | None => Undefined
          end
      | (inr vs, w') =>
          match last (stack w ++ vs) with
          | None => Undefined
          | Some v =>
              if is_function v then Ret 1 (hooked v (set_stack (stack w ++ vs) w'))
              else Ret 1 (set_cerr (cerr w' +:+ not_a_function_line)
                            (set_stack (removelast (stack w ++ vs)) w'))
          end
      end
  end /\
  forall id,
    stack (bootstrap_world id w) = stack w ++ [LFunction id] /\
    globals (bootstrap_world id w) !! "readfile" = Some (CFunction CF_readfile) /\
    globals (bootstrap_world id w) !! "writefile" = Some (CFunction CF_writefile) /\
    (forall name, name <> "readfile" -> name <> "writefile" ->
                  globals (bootstrap_world id w) !! name = globals w !! name) /\
    registry (bootstrap_world id w) = registry w /\
    disk (bootstrap_world id w) = (mkdir_p "workspace" (disk w)).1 /\
    cerr (bootstrap_world id w) = cerr w /\
    trace (bootstrap_world id w) = trace w ++ [EvSystem "mkdir -p workspace"].
Proof.
  split.
  - rewrite luaopen_run, execute_cases, chunk_bytes_c_str.
    rewrite (c_str_no_NUL _ mainLuauScript_no_NUL).
    destruct (vm_load vm "string" mainLuauScript) as [msg|id]; [reflexivity|].
    change (set_stack (stack (registered (after_mkdir w)) ++ [LFunction id])
              (registered (after_mkdir w))) with (bootstrap_world id w).
    change (stack (registered (after_mkdir w))) with (stack w).
    destruct (vm_call vm id [] (bootstrap_world id w)) as [[e|vs] w'].
    + now destruct (tostring_value e).
    + destruct (stack w ++ vs) as [|v st _] using rev_ind; [reflexivity|].
      rewrite last_snoc, removelast_last.
      destruct (is_function v); [|reflexivity].
      now rewrite (hook_run st v) by reflexivity.
  - intros id. destruct (bootstrap_world_globals id w) as [Hr Hw].
    repeat split; try assumption.
    intros name H1 H2. unfold bootstrap_world, registered.
    cbn [globals set_globals set_stack after_mkdir set_disk log].
    now rewrite !lookup_insert_ne by congruence.
Qed.

(** A bootstrap that looks for [readfile] and [writefile] finds them, and
    the function it then returns is stored in the registry. *)
Lemma luaopen_runs_bootstrap_registered_witness :
  exists w',
    luaopen_mylibrary vm_checking w_load = Ret 1 w' /\
    registry w' !! 1 = Some onPlayerAdded.
Proof.
  destruct (luaopen_runs_bootstrap_registered vm_checking w_load) as [Hrun _].
  rewrite Hrun. eexists. split; vm_compute; reflexivity.
Defined.

(** X13.  [registerExecutorFunctions] binds the two global names to the
    library's functions, whatever they were bound to, and changes nothing
    else: every other global, the stack, the registry, the disk and the
    log are as before.  Registering a second time changes nothing. *)
Theorem registerExecutorFunctions_effect (w : world) :
  exists w',
    registerExecutorFunctions w = Ret tt w' /\
    globals w' !! "readfile" = Some (CFunction CF_readfile) /\
    globals w' !! "writefile" = Some (CFunction CF_writefile) /\
    (forall name, name <> "readfile" -> name <> "writefile" ->
                  globals w' !! name = globals w !! name) /\
    set_globals (globals w) w' = w /\
    registerExecutorFunctions w' = Ret tt w'.
Proof.
  exists (registered w). split; [apply register_run|].
  destruct (registered_globals w) as [Hr Hw].
  split; [assumption|]. split; [assumption|]. split; [|split].
  - intros name H1 H2. unfold registered. cbn [globals set_globals].
    now rewrite !lookup_insert_ne by congruence.
  - now destruct w.
  - rewrite register_run. f_equal.
    destruct w as [st g r d c t]. unfold registered, set_globals.
    cbn [globals stack registry disk cerr trace].
    f_equal. apply map_eq. intros name.
    destruct (decide (name = "writefile")) as [Hw'|Hw'];
      destruct (decide (name = "readfile")) as [Hr'|Hr'];
      subst; try discriminate; now simplify_map_eq.
Qed.

(** * Files, for every disk *)

(** X14.  A write that lands replaces the content.  Whatever
    [workspace/k] held before, when the file opens for writing as a
    regular file that can be read and the disk has room, [writefile(k, s)]
    returns true and the file holds [s] up to its first NUL byte and
    nothing else: that is what the [readfile(k)] after it returns. *)
Theorem writefile_overwrites (k s : string) (w : world) :
  write_lands (disk (after_mkdir w)) (ws_path k) (c_str s) = true ->
  exists w1 w2,
    call_cfunction CF_writefile [Str k; Str s] w = Ret [Boolean true] w1 /\
    call_cfunction CF_readfile [Str k] w1 = Ret [Str (c_str s)] w2 /\
    open_in (disk w1) (ws_path k) = Some (c_str s).
Proof. apply readfile_after_writefile. Qed.

(** [greet.txt] holds [hello world]; after [hi] is written it holds [hi]. *)
Lemma writefile_overwrites_witness :
  open_in fs_workspace (ws_path "greet.txt") = Some "hello world" /\
  exists w1 w2,
    call_cfunction CF_writefile [Str "greet.txt"; Str "hi"] (world_of fs_workspace [])
    = Ret [Boolean true] w1 /\
    call_cfunction CF_readfile [Str "greet.txt"] w1 = Ret [Str (c_str "hi")] w2 /\
    open_in (disk w1) (ws_path "greet.txt") = Some (c_str "hi").
Proof.
  split; [vm_compute; reflexivity|].
  apply (writefile_overwrites "greet.txt" "hi" (world_of fs_workspace [])).
  vm_compute. reflexivity.
Defined.

(** X21.  The result of [writefile] reports the opening of the file, not
    the write: the stream is not looked at after [file << content] and
    [file.close()].  For string arguments the call returns true exactly
    when the file could be opened.  When it opens on a regular file and
    the disk has less room than the content (up to its first NUL byte)
    needs, the call returns true all the same and the file does not hold
    the content; and a null device takes every content and keeps none. *)
Theorem writefile_true_on_failed_write (name content : string) (w : world) :
  (exists b w',
     call_cfunction CF_writefile [Str name; Str content] w = Ret [Boolean b] w' /\
     (b = true <-> is_Some (open_out (disk (after_mkdir w)) (ws_path name)))) /\
  (forall q fs' d r wr,
     open_out (disk (after_mkdir w)) (ws_path name) = Some (q, fs') ->
     nodes fs' !! q = Some (RegFile d r wr) ->
     (free fs' < len (c_str content))%N ->
     exists w' d',
       call_cfunction CF_writefile [Str name; Str content] w = Ret [Boolean true] w' /\
       nodes (disk w') !! q = Some (RegFile d' r wr) /\
       d' <> c_str content) /\
  (forall q fs',
     open_out (disk (after_mkdir w)) (ws_path name) = Some (q, fs') ->
     nodes fs' !! q = Some NullDevice ->
     exists w',
       call_cfunction CF_writefile [Str name; Str content] w = Ret [Boolean true] w' /\
       disk w' = disk (after_mkdir w)).
Proof.
  rewrite call_writefile_strings. cbv zeta.
  split; [|split].
  - destruct (open_out (disk (after_mkdir w)) (ws_path name)) as [[q fs']|].
    + do 2 eexists. split; [reflexivity|]. split; eauto.
    + do 2 eexists. split; [reflexivity|]. split; [discriminate|].
      intros [? ?]. discriminate.
  - intros q fs' d r wr Hopen Hq Hfree. rewrite Hopen.
    assert (d = EmptyString) as ->.
    { apply open_out_Some in Hopen as (_ & _ & _ & _ & _ & Hnode).
      destruct Hnode as [[Hn _]|(r' & wr' & Hn)]; congruence. }
    do 2 eexists. split; [reflexivity|]. cbn [disk set_disk].
    unfold append_file. rewrite Hq. cbn [fst nodes set_free set_node].
    split; [apply lookup_insert_eq|].
    rewrite N.min_r by lia. rewrite append_nil_l.
    intros Heq. apply (f_equal String.length) in Heq.
    pose proof (substring_short (N.to_nat (free fs')) (c_str content)) as Hshort.
    unfold len in Hfree. lia.
  - intros q fs' Hopen Hq. rewrite Hopen.
    eexists. split; [reflexivity|]. cbn [disk set_disk].
    unfold append_file. rewrite Hq. cbn [fst].
    apply open_out_Some in Hopen as (_ & _ & _ & _ & _ & Hnode).
    destruct Hnode as [[_ Hfs]|(r' & wr' & Hn)]; congruence.
Qed.

(** On a disk without a free byte [writefile] returns true and leaves an
    empty file. *)
Lemma writefile_true_on_failed_write_witness :
  exists w',
    call_cfunction CF_writefile [Str "k"; Str "hi"] (world_of fs_full [])
    = Ret [Boolean true] w' /\
    open_in (disk w') "workspace/k" = Some "".
Proof.
  destruct (writefile_true_on_failed_write "k" "hi" (world_of fs_full []))
    as [(b & w' & Hcall & Hb) _].
  exists w'. assert (b = true) as -> by (apply Hb; vm_compute; eauto).
  split; [exact Hcall|].
  revert Hcall. vm_compute. intros [= <-]. reflexivity.
Defined.

(** X15.  [writefile] changes one file only.  Whatever it returns, a
    name that leads to another place than the name written reads the same
    before and after the call. *)
Theorem writefile_leaves_other_files (k s k' : string) (b : bool) (w w1 : world) :
  call_cfunction CF_writefile [Str k; Str s] w = Ret [Boolean b] w1 ->
  resolve (disk (after_mkdir w)) (ws_path k')
  <> resolve (disk (after_mkdir w)) (ws_path k) ->
  exists r wa wb,
    call_cfunction CF_readfile [Str k'] w = Ret [r] wa /\
    call_cfunction CF_readfile [Str k'] w1 = Ret [r] wb.
Proof.
  intros Hwrite Hother. rewrite call_writefile_strings in Hwrite. cbv zeta in Hwrite.
  rewrite !call_readfile_string. cbv zeta.
  assert (Hsame : open_in (disk (after_mkdir w1)) (ws_path k')
                  = open_in (disk (after_mkdir w)) (ws_path k')).
  { destruct (open_out (disk (after_mkdir w)) (ws_path k)) as [[q fs]|] eqn:Hopen.
    - injection Hwrite as _ <-.
      rewrite after_mkdir_disk. cbn [disk set_disk].
      rewrite (mkdir_after_write _ _ _ _ _ Hopen). cbn [fst].
      unfold open_in. rewrite (resolve_after_write _ _ _ _ _ _ Hopen).
      apply open_out_Some in Hopen as (Hres & _ & _ & _ & Hnodes & _).
      destruct (append_file_frame q (c_str s) fs) as (_ & _ & Hnodes').
      destruct (resolve (disk (after_mkdir w)) (ws_path k')) as [q'|]; [|reflexivity].
      assert (q' <> q) by congruence.
      now rewrite Hnodes', Hnodes.
    - injection Hwrite as _ <-.
      rewrite after_mkdir_disk. cbn [disk log].
      now rewrite after_mkdir_twice_disk, <- after_mkdir_disk, after_mkdir_twice_disk. }
  rewrite Hsame.
  destruct (open_in (disk (after_mkdir w)) (ws_path k')); eauto.
Qed.

Lemma writefile_leaves_other_files_witness :
  exists r wa wb,
    call_cfunction CF_readfile [Str "greet.txt"] (world_of fs_workspace []) = Ret [r] wa /\
    call_cfunction CF_readfile [Str "greet.txt"]
      (match call_cfunction CF_writefile [Str "hello.txt"; Str "hi"]
               (world_of fs_workspace []) with
       | Ret _ w1 => w1
       | Undefined => world_of fs_workspace []
       end) = Ret [r] wb.
Proof.
  eapply (writefile_leaves_other_files "hello.txt" "hi" "greet.txt" true
            (world_of fs_workspace [])).
  - vm_compute. reflexivity.
  - vm_compute. discriminate.
Defined.

(** X16.  The two registered functions are defined for every argument
    list and every world, and always hand the script exactly one value:
    [readfile] a string, never nil, also when it fails; [writefile] a
    boolean.  Neither changes the caller's stack, the globals, the
    registry or what [std::cerr] received. *)
Theorem registered_functions_one_value (args : list value) (w : world) :
  (exists s w',
     call_cfunction CF_readfile args w = Ret [Str s] w' /\
     stack w' = stack w /\ globals w' = globals w /\ registry w' = registry w /\
     cerr w' = cerr w) /\
  (exists b w',
     call_cfunction CF_writefile args w = Ret [Boolean b] w' /\
     stack w' = stack w /\ globals w' = globals w /\ registry w' = registry w /\
     cerr w' = cerr w).
Proof.
  split.
  - rewrite call_readfile.
    destruct (args !! 0%nat ≫= tostring_value) as [x|]; cbv zeta.
    + destruct (open_in _ (ws_path x)); do 2 eexists; repeat split; reflexivity.
    + do 2 eexists; repeat split; reflexivity.
  - rewrite call_writefile.
    destruct (args !! 0%nat ≫= tostring_value) as [x|];
      [destruct (args !! 1%nat ≫= tostring_value) as [c|]|]; cbv zeta.
    + destruct (open_out _ (ws_path x)) as [[q fs]|]; do 2 eexists;
        repeat split; reflexivity.
    + do 2 eexists; repeat split; reflexivity.
    + do 2 eexists; repeat split; reflexivity.
Qed.

(** ** Names that are not plain file names *)

Lemma resolve_two (fs : filesys) (a b : string) :
  fold_left (walk fs) [a; b] (Some (cwd fs))
  = walk fs (walk fs (Some (cwd fs)) a) b.
Proof. reflexivity. Qed.

(** The paths [workspace/], [workspace/.] and [workspace/..] cannot be
    opened for writing: when they resolve, it is to a directory. *)
Lemma open_out_directory (fs : filesys) (name : string) :
  name = "" \/ name = "." \/ name = ".." ->
  open_out fs (ws_path name) = None.
Proof.
  intros Hname. unfold open_out, resolve.
  assert (Hc : components (ws_path name) = ["workspace"; name])
    by (destruct Hname as [->|[->| ->]]; reflexivity).
  assert (Hlen : (String.length (ws_path name) <? PATH_MAX)%nat = true)
    by (destruct Hname as [->|[->| ->]]; reflexivity).
  rewrite Hlen, Hc, resolve_two, walk_workspace.
  destruct (is_dir fs (cwd fs)) eqn:Hcwd; [|reflexivity].
  unfold walk.
  destruct (is_dir fs (cwd fs ++ ["workspace"])) eqn:Hws; [|reflexivity].
  destruct Hname as [->|[->| ->]].
  - change (String.eqb "" "" || String.eqb "" ".") with true. cbn beta iota.
    unfold is_dir in Hws.
    destruct (nodes fs !! (cwd fs ++ ["workspace"])) as [[| |]|]; try discriminate;
      reflexivity.
  - change (String.eqb "." "" || String.eqb "." ".") with true. cbn beta iota.
    unfold is_dir in Hws.
    destruct (nodes fs !! (cwd fs ++ ["workspace"])) as [[| |]|]; try discriminate;
      reflexivity.
  - change (String.eqb ".." "" || String.eqb ".." ".") with false.
    change (String.eqb ".." "..") with true. cbn beta iota.
    rewrite removelast_last. unfold is_dir in Hcwd.
    destruct (nodes fs !! cwd fs) as [[| |]|]; try discriminate; reflexivity.
Qed.

(** X17.  An empty name, [.] and [..] name the workspace directory or its
    parent, not a file: on every disk [writefile] returns false for them
    and changes no file, whatever the content. *)
Theorem writefile_directory_name (name content : string) (w : world) :
  name = "" \/ name = "." \/ name = ".." ->
  exists w',
    call_cfunction CF_writefile [Str name; Str content] w = Ret [Boolean false] w' /\
    disk w' = disk (after_mkdir w).
Proof.
  intros Hname. rewrite call_writefile_strings. cbv zeta.
  rewrite open_out_directory by assumption.
  eexists. split; [reflexivity|]. cbn [disk log]. apply after_mkdir_twice_disk.
Qed.

Lemma writefile_directory_name_witness :
  exists w',
    call_cfunction CF_writefile [Str ""; Str "hi"] (world_of fs_workspace [])
    = Ret [Boolean false] w' /\
    disk w' = disk (after_mkdir (world_of fs_workspace [])).
Proof.
  apply (writefile_directory_name "" "hi" (world_of fs_workspace [])). now left.
Defined.

Lemma components_plain (n : string) : has_slash n = false -> components n = [n].
Proof.
  induction n as [|c n IH]; [reflexivity|]. simpl.
  intros H. apply orb_false_iff in H as [Hc Hn].
  rewrite Hc, IH by assumption. reflexivity.
Qed.

Lemma plain_name_facts (n : string) :
  plain_name n = true ->
  String.eqb n "" = false /\ String.eqb n "." = false /\ String.eqb n ".." = false /\
  has_slash n = false /\ has_NUL n = false.
Proof.
  unfold plain_name. rewrite !andb_true_iff, !negb_true_iff. tauto.
Qed.

Lemma length_append (a b : string) :
  String.length (a +:+ b) = (String.length a + String.length b)%nat.
Proof.
  induction a as [|c a IH]; [reflexivity|]. rewrite append_cons. simpl. now rewrite IH.
Qed.

(** The path built for [../n], for a plain name [n] of at most [NAME_MAX]
    bytes, leads to [n] in the current directory. *)
Lemma resolve_parent (fs : filesys) (n : string) :
  plain_name n = true -> (String.length n <= NAME_MAX)%nat ->
  is_dir fs (cwd fs) = true -> is_dir fs (cwd fs ++ ["workspace"]) = true ->
  resolve fs (ws_path ("../" +:+ n)) = Some (cwd fs ++ [n]).
Proof.
  intros Hn Hlen Hcwd Hws. apply plain_name_facts in Hn as (H0 & H1 & H2 & Hs & Hz).
  unfold resolve, ws_path.
  rewrite (c_str_app "../" n) by reflexivity. rewrite (c_str_no_NUL n Hz).
  assert (Hpath : (String.length ("workspace/" +:+ "../" +:+ n) <? PATH_MAX)%nat = true).
  { rewrite !length_append. apply Nat.ltb_lt.
    change (String.length "workspace/") with 10%nat.
    change (String.length "../") with 3%nat.
    unfold NAME_MAX in Hlen. unfold PATH_MAX. lia. }
  rewrite Hpath.
  assert (Hc : components ("workspace/" +:+ "../" +:+ n) = ["workspace"; ".."; n]).
  { cbv [String.append]. fold String.append.
    simpl. now rewrite (components_plain n Hs). }
  rewrite Hc. cbn [fold_left]. rewrite walk_workspace, Hcwd. unfold walk. rewrite Hws.
  change (String.eqb ".." "" || String.eqb ".." ".") with false.
  change (String.eqb ".." "..") with true. cbn beta iota.
  rewrite removelast_last, Hcwd, H0, H1, H2.
  apply Nat.leb_le in Hlen. now rewrite Hlen.
Qed.

(** X4.  File names are not confined to the workspace.  On a disk whose
    current directory is writable and holds the directory [workspace],
    [writefile] with the name [../n], for any plain name [n] of at most
    [NAME_MAX] bytes that names nothing in the current directory yet,
    and with room on the disk for the content, returns true and creates,
    in the current directory and outside [workspace], the file [n] with
    the content up to its first NUL byte. *)
Theorem writefile_escapes_workspace (n content : string) (w : world) :
  plain_name n = true ->
  (String.length n <= NAME_MAX)%nat ->
  is_writable_dir (disk w) (cwd (disk w)) = true ->
  is_dir (disk w) (cwd (disk w) ++ ["workspace"]) = true ->
  nodes (disk w) !! (cwd (disk w) ++ [n]) = None ->
  (len (c_str content) <= free (disk w))%N ->
  exists w',
    call_cfunction CF_writefile [Str ("../" +:+ n); Str content] w
    = Ret [Boolean true] w' /\
    nodes (disk w') !! (cwd (disk w) ++ [n]) = Some (RegFile (c_str content) true true) /\
    cwd (disk w) ++ [n] <> cwd (disk w) ++ ["workspace"].
Proof.
  intros Hn Hlen Hwr Hws Hnone Hroom.
  assert (Hcwd : is_dir (disk w) (cwd (disk w)) = true).
  { unfold is_dir. unfold is_writable_dir in Hwr.
    destruct (nodes (disk w) !! cwd (disk w)) as [[| |]|]; congruence. }
  assert (Hmk : disk (after_mkdir w) = disk w)
    by (rewrite after_mkdir_disk, (mkdir_p_present "workspace" (disk w)) by assumption;
        reflexivity).
  pose proof (resolve_parent (disk w) n Hn Hlen Hcwd Hws) as Hres.
  assert (Hopen : open_out (disk (after_mkdir w)) (ws_path ("../" +:+ n))
                  = Some (cwd (disk w) ++ [n],
                          set_node (cwd (disk w) ++ [n]) (RegFile EmptyString true true)
                            (disk w))).
  { rewrite Hmk. unfold open_out. rewrite Hres, Hnone, removelast_last, Hwr. reflexivity. }
  destruct (writefile_lands ("../" +:+ n) content w _ _ EmptyString true true Hopen)
    as (w' & Hwrite & _ & Hnode).
  - cbn [nodes set_node]. apply lookup_insert_eq.
  - apply N.leb_le. exact Hroom.
  - exists w'. split; [assumption|]. split; [assumption|].
    intros Heq. rewrite Heq in Hnone. unfold is_dir in Hws. rewrite Hnone in Hws.
    discriminate.
Qed.

Lemma writefile_escapes_workspace_witness :
  exists w',
    call_cfunction CF_writefile [Str ("../" +:+ "escape.txt"); Str "x"]
      (world_of fs_workspace [])
    = Ret [Boolean true] w' /\
    nodes (disk w') !! (cwd (disk (world_of fs_workspace [])) ++ ["escape.txt"])
    = Some (RegFile (c_str "x") true true) /\
    cwd (disk (world_of fs_workspace [])) ++ ["escape.txt"]
    <> cwd (disk (world_of fs_workspace [])) ++ ["workspace"].
Proof.
  apply (writefile_escapes_workspace "escape.txt" "x" (world_of fs_workspace []));
    vm_compute; first [reflexivity | discriminate | lia | intros; discriminate].
Defined.

(** ** What else the calls do *)

(** X18.  [readfile] is not read-only: with a usable name it runs
    [mkdir -p workspace] first.  On a disk whose current directory is
    writable and has no entry [workspace], the call creates that
    directory, whatever the name and whether or not a file is read; no
    other entry of the disk changes. *)
Theorem readfile_creates_workspace (x : string) (w : world) :
  is_writable_dir (disk w) (cwd (disk w)) = true ->
  nodes (disk w) !! (cwd (disk w) ++ ["workspace"]) = None ->
  exists r w',
    call_cfunction CF_readfile [Str x] w = Ret [r] w' /\
    disk w' = set_node (cwd (disk w) ++ ["workspace"]) (Directory true) (disk w) /\
    is_dir (disk w') (cwd (disk w) ++ ["workspace"]) = true.
Proof.
  intros Hwr Hnone.
  assert (Hmk : (mkdir_p "workspace" (disk w)).1
                = set_node (cwd (disk w) ++ ["workspace"]) (Directory true) (disk w)).
  { unfold mkdir_p. unfold is_dir. unfold is_writable_dir in *.
    destruct (nodes (disk w) !! cwd (disk w)) as [[|wr|]|]; try discriminate.
    rewrite Hnone. now subst wr. }
  rewrite call_readfile_string. cbv zeta.
  assert (Hdir : is_dir (set_node (cwd (disk w) ++ ["workspace"]) (Directory true) (disk w))
                   (cwd (disk w) ++ ["workspace"]) = true)
    by (unfold is_dir, set_node; cbn [nodes]; now rewrite lookup_insert_eq).
  destruct (open_in (disk (after_mkdir w)) (ws_path x)); do 2 eexists;
    (split; [reflexivity|]); cbn [disk log]; rewrite after_mkdir_disk, Hmk;
    split; [reflexivity|assumption|reflexivity|assumption].
Qed.

Lemma readfile_creates_workspace_witness :
  exists r w',
    call_cfunction CF_readfile [Str "nope"] (world_of fs_empty []) = Ret [r] w' /\
    disk w' = set_node (cwd fs_empty ++ ["workspace"]) (Directory true) fs_empty /\
    is_dir (disk w') (cwd fs_empty ++ ["workspace"]) = true.
Proof.
  apply (readfile_creates_workspace "nope" (world_of fs_empty []));
    vm_compute; reflexivity.
Defined.

(** X19.  [hookPlayerAddedEvent] takes a new reference every time.  Run
    twice on the same function it stores the function under two
    different keys, and every reference the registry held before is
    still there: nothing is released or replaced. *)
Theorem hookPlayerAddedEvent_twice (st : list value) (f : value) (w : world) :
  stack w = st ++ [f] -> f <> Nil ->
  exists k1 k2 w1 w2,
    hookPlayerAddedEvent w = Ret tt w1 /\
    hookPlayerAddedEvent w1 = Ret tt w2 /\
    k1 <> k2 /\
    registry w !! k1 = None /\ registry w !! k2 = None /\
    registry w2 !! k1 = Some f /\ registry w2 !! k2 = Some f /\
    (forall k v, registry w !! k = Some v -> registry w2 !! k = Some v) /\
    stack w2 = stack w.
Proof.
  intros Hst Hf.
  set (k1 := fresh_ref (registry w)).
  set (r1 := <[k1 := f]> (registry w)).
  set (k2 := fresh_ref r1).
  assert (Hk1 : registry w !! k1 = None) by apply fresh_ref_unused.
  assert (Hk2 : r1 !! k2 = None) by apply fresh_ref_unused.
  assert (Hne : k1 <> k2).
  { intros Heq. rewrite <- Heq in Hk2. unfold r1 in Hk2.
    rewrite lookup_insert_eq in Hk2. discriminate. }
  assert (Hh : forall w0, hooked f w0
                          = set_registry (<[fresh_ref (registry w0) := f]> (registry w0)) w0)
    by (intros w0; destruct f; first [reflexivity | congruence]).
  exists k1, k2, (hooked f w), (hooked f (hooked f w)).
  split; [now apply (hook_run st)|].
  split; [apply (hook_run st); now rewrite hooked_stack|].
  split; [assumption|]. split; [assumption|].
  rewrite !Hh. cbn [registry set_registry]. fold k1. fold r1. fold k2.
  split; [|split; [|split; [|split]]].
  - unfold r1 in Hk2. now rewrite lookup_insert_ne in Hk2.
  - rewrite lookup_insert_ne by congruence. apply lookup_insert_eq.
  - apply lookup_insert_eq.
  - intros k v Hkv.
    assert (k <> k1) by congruence.
    assert (k <> k2).
    { intros ->. unfold r1 in Hk2. rewrite lookup_insert_ne in Hk2 by congruence.
      congruence. }
    unfold r1. now rewrite !lookup_insert_ne by congruence.
  - reflexivity.
Qed.

Lemma hookPlayerAddedEvent_twice_witness :
  exists k1 k2 w1 w2,
    hookPlayerAddedEvent w_hook = Ret tt w1 /\
    hookPlayerAddedEvent w1 = Ret tt w2 /\
    k1 <> k2 /\
    registry w_hook !! k1 = None /\ registry w_hook !! k2 = None /\
    registry w2 !! k1 = Some onPlayerAdded /\ registry w2 !! k2 = Some onPlayerAdded /\
    (forall k v, registry w_hook !! k = Some v -> registry w2 !! k = Some v) /\
    stack w2 = stack w_hook.
Proof.
  apply (hookPlayerAddedEvent_twice [Str "mylibrary"] onPlayerAdded w_hook).
  - reflexivity.
  - discriminate.
Defined.

(** X20.  When [luaopen_mylibrary] returns, it returns 1.  Its behaviour
    is undefined in exactly two cases: the bootstrap raised an error
    value that is neither a string nor a number, or the bootstrap
    returned no value and the stack was empty at entry.  In every other
    case the load returns. *)
Theorem luaopen_defined_unless (vm : interpreter) (w : world) :
  (luaopen_mylibrary vm w = Undefined <->
   exists id,
     vm_load vm "string" (chunk_bytes mainLuauScript) = inr id /\
     ((exists e w', vm_call vm id [] (bootstrap_world id w) = (inl e, w') /\
                    tostring_value e = None) \/
      (exists w', vm_call vm id [] (bootstrap_world id w) = (inr [], w') /\
                  stack w = []))) /\
  (forall n w', luaopen_mylibrary vm w = Ret n w' -> n = 1).
Proof.
  rewrite luaopen_run, execute_cases.
  destruct (vm_load vm "string" (chunk_bytes mainLuauScript)) as [msg|id].
  { split; [|intros n w' H; cbn beta iota in H; congruence].
    split; [discriminate|]. intros (id & Hid & _). discriminate. }
  change (set_stack (stack (registered (after_mkdir w)) ++ [LFunction id])
            (registered (after_mkdir w))) with (bootstrap_world id w).
  change (stack (registered (after_mkdir w))) with (stack w).
  destruct (vm_call vm id [] (bootstrap_world id w)) as [[e|vs] w0] eqn:Hcall.
  - destruct (tostring_value e) eqn:He.
    + split; [|intros n w' H; cbn beta iota in H; congruence].
      split; [discriminate|].
      intros (id' & [= <-] & [(e' & w' & Hc & He')|(w' & Hc & _)]);
        rewrite Hcall in Hc; congruence.
    + split; [|discriminate].
      split; [|reflexivity]. intros _. exists id. split; [reflexivity|]. left. eauto.
  - destruct (stack w ++ vs) as [|v st _] eqn:Hst using rev_ind.
    + apply app_eq_nil in Hst as [Hw ->].
      split; [|discriminate].
      split; [|reflexivity]. intros _. exists id. split; [reflexivity|]. right. eauto.
    + rewrite last_snoc, removelast_last.
      assert (Hret : exists w1,
                 match (if is_function v
                        then Ret true (set_stack (st ++ [v]) w0)
                        else Ret false
                               (set_cerr (cerr w0 +:+ not_a_function_line)
                                  (set_stack st w0)))
                 with
                 | Ret true w' =>
                     match hookPlayerAddedEvent w' with
                     | Ret _ w'' => Ret 1 w''
                     | Undefined => Undefined
                     end
                 | Ret false w' => Ret 1 w'
                 | Undefined => Undefined
                 end = Ret 1 w1).
      { destruct (is_function v); [|eauto].
        rewrite (hook_run st v) by reflexivity. eauto. }
      destruct Hret as [w1 ->].
      split; [|intros n w' H; cbn beta iota in H; congruence].
      split; [discriminate|].
      intros (id' & [= <-] & [(e' & w' & Hc & _)|(w' & Hc & Hw)]);
        rewrite Hcall in Hc.
      * congruence.
      * injection Hc as -> _. rewrite Hw in Hst. simpl in Hst.
        destruct st; discriminate.
Qed.
